(** * Tyra IRX loader: boot-time bring-up of the I/O processor

    A shallow embedding of [IrxLoader] (irx_loader.cpp): the constructor,
    [applyRpcPatches], the per-module loaders, [loadAll], [delay] and
    [waitUntilUsbDeviceIsReady].

    The code is a straight sequence of calls into the platform SDK.  Each such
    call is recorded as an [Event] in a chronological log, together with the
    value the platform answered; the answers come from an [Environment] that
    may inspect the whole log so far.  The static member [isLoaded] is the
    only program state. *)

From Stdlib Require Import List ZArith String Bool Lia.
Import ListNotations.
Local Open Scope string_scope.
Local Open Scope list_scope.
Local Open Scope Z_scope.

(** ** Data *)

(** The module images declared with [EXTERN_IRX].  Both USB driver variants
    are listed: the declarations sit under a switch spelled [USE_USBBDMINI],
    the loads under [USE_USBDMINI], and only the latter decides what is
    loaded. *)
Inductive Irx : Type :=
| sio2man_irx | padman_irx | audsrv_irx | libsd_irx | fileXio_irx | iomanX_irx
| bdm_irx | bdmfs_fatfs_irx
| usbd_mini_irx | usbmass_bd_irx | usbd_irx | usbmass_bd_mini_irx
| ps2hdd_irx | ps2fs_irx | ps2dev9_irx | ps2atad_irx.

Definition Irx_eq_dec (a b : Irx) : {a = b} + {a <> b}.
Proof. decide equality. Defined.

Definition Irx_eqb (a b : Irx) : bool := if Irx_eq_dec a b then true else false.

(** The three capability toggles of sbv_patches.h used by the loader. *)
Inductive SbvPatch : Type :=
| sbv_patch_enable_lmb
| sbv_patch_disable_prefix_check
| sbv_patch_fileio.

(** Preprocessor switches tested in the file. *)
Record BuildConfig : Type := mkBuildConfig {
  RESET_IOP : bool;
  IOP : bool;
  USE_USBDMINI : bool;
  ATAD : bool
}.

(** What the program does to the outside world, in order.  Calls that give
    back a value carry it. *)
Inductive Event : Type :=
| EvSifInitRpc
| EvSifIopReset (arg : option string) (ok : bool)
| EvSifIopSync (ok : bool)
| EvSbvPatch (p : SbvPatch) (ret : Z)
| EvExecModule (m : Irx) (ret : Z)
| EvLog (msg : string)
| EvAssertFail (msg : string)
| EvNops (n : Z)
| EvStat (path : string) (ret : Z)
| EvNopDelay.

(** The platform's answers.  Every answer may depend on everything that
    happened before it. *)
Record Environment : Type := mkEnvironment {
  env_SifIopReset : list Event -> option string -> bool;
  env_SifIopSync : list Event -> bool;
  env_sbv_patch : list Event -> SbvPatch -> Z;
  env_SifExecModuleBuffer : list Event -> Irx -> Z;
  env_stat : list Event -> string -> Z
}.

(** The process: [bool IrxLoader::isLoaded] and the log of events. *)
Record World : Type := mkWorld {
  isLoaded : bool;
  log : list Event
}.

(** [bool IrxLoader::isLoaded = false;] at process start. *)
Definition initial_world : World := mkWorld false [].

(** ** The monad of the embedding

    A computation either returns, halts the process at a failed assertion, or
    is still inside an unbounded wait loop when its fuel is used up. *)
Inductive Result (A : Type) : Type :=
| Ok (a : A)
| Halt (msg : string)
| Spin.

Arguments Ok {A} a.
Arguments Halt {A} msg.
Arguments Spin {A}.

Definition M (A : Type) : Type := World -> Result A * World.

Definition ret {A : Type} (a : A) : M A := fun w => (Ok a, w).

Definition bind {A B : Type} (c : M A) (k : A -> M B) : M B :=
  fun w =>
    match c w with
    | (Ok a, w') => k a w'
    | (Halt msg, w') => (Halt msg, w')
    | (Spin, w') => (Spin, w')
    end.

Notation "x <- c ;; k" := (bind c (fun x => k))
  (at level 61, c at next level, right associativity).
Notation "c ;; k" := (bind c (fun _ => k))
  (at level 61, right associativity).

Definition when (b : bool) (c : M unit) : M unit := if b then c else ret tt.

Definition emit (e : Event) : M unit :=
  fun w => (Ok tt, mkWorld (isLoaded w) (log w ++ [e])).

Definition get_isLoaded : M bool := fun w => (Ok (isLoaded w), w).

Definition set_isLoaded (b : bool) : M unit :=
  fun w => (Ok tt, mkWorld b (log w)).

(** [while (!poll()) {}] with at most [fuel] polls. *)
Fixpoint spin_until (fuel : nat) (poll : M bool) : M unit :=
  match fuel with
  | O => fun w => (Spin, w)
  | S fuel' => ok <- poll ;; if ok then ret tt else spin_until fuel' poll
  end.

(** Result, final world and emitted events of running [c] from [w]. *)
Definition result_of {A : Type} (c : M A) (w : World) : Result A := fst (c w).
Definition world_after {A : Type} (c : M A) (w : World) : World := snd (c w).
Definition emitted {A : Type} (c : M A) (w : World) : list Event :=
  skipn (List.length (log w)) (log (world_after c w)).

(** ** debug/debug.hpp *)

(** Modelled from the spec: the macro [TYRA_LOG] of debug/debug.hpp, which is
    not part of the sources at hand.  It writes one line on the log channel
    and has no other effect. *)
Definition TYRA_LOG (msg : string) : M unit := emit (EvLog msg).

(** Modelled from the spec: the macro [TYRA_ASSERT] of debug/debug.hpp, which
    is not part of the sources at hand.  A failed assertion is an
    unrecoverable halt on the fatal-error channel, carrying the message that
    names the failing step; no later statement runs. *)
Definition TYRA_ASSERT (cond : bool) (msg : string) : M unit :=
  if cond then ret tt
  else fun w => (Halt msg, mkWorld (isLoaded w) (log w ++ [EvAssertFail msg])).

(** ** The program *)

Section Program.

Variable cfg : BuildConfig.
Variable env : Environment.

(** *** Platform calls *)

Definition SifInitRpc : M unit := emit EvSifInitRpc.

Definition SifIopReset (arg : option string) : M bool :=
  fun w =>
    let ok := env_SifIopReset env (log w) arg in
    (Ok ok, mkWorld (isLoaded w) (log w ++ [EvSifIopReset arg ok])).

Definition SifIopSync : M bool :=
  fun w =>
    let ok := env_SifIopSync env (log w) in
    (Ok ok, mkWorld (isLoaded w) (log w ++ [EvSifIopSync ok])).

Definition sbv_patch (p : SbvPatch) : M Z :=
  fun w =>
    let r := env_sbv_patch env (log w) p in
    (Ok r, mkWorld (isLoaded w) (log w ++ [EvSbvPatch p r])).

(** [SifExecModuleBuffer(&m, size_m, 0, nullptr, &ret)]: the value is what
    the call stores in [ret]; every call site drops the function's own
    return value. *)
Definition SifExecModuleBuffer (m : Irx) : M Z :=
  fun w =>
    let r := env_SifExecModuleBuffer env (log w) m in
    (Ok r, mkWorld (isLoaded w) (log w ++ [EvExecModule m r])).

Definition stat (path : string) : M Z :=
  fun w =>
    let r := env_stat env (log w) path in
    (Ok r, mkWorld (isLoaded w) (log w ++ [EvStat path r])).

Definition nopdelay : M unit := emit EvNopDelay.

(** *** IrxLoader::applyRpcPatches *)

Definition applyRpcPatches : M Z :=
  r <- sbv_patch sbv_patch_enable_lmb ;;
  TYRA_ASSERT (0 <=? r)
    "Failed to load Applying SBV Patches sbv_patch_enable_lmb" ;;
  r <- sbv_patch sbv_patch_disable_prefix_check ;;
  TYRA_ASSERT (0 <=? r)
    "Failed to load Applying SBV Patches sbv_patch_disable_prefix_check" ;;
  r <- sbv_patch sbv_patch_fileio ;;
  TYRA_ASSERT (0 <=? r)
    "Failed to load Applying SBV Patches sbv_patch_fileio" ;;
  ret r.

(** *** IrxLoader::IrxLoader *)

(** The two [while (!...) {}] loops of the [RESET_IOP] block have no bound in
    the source; here each polls at most [fuel] times and the constructor ends
    in [Spin] when a loop uses them up. *)
Definition IrxLoader (fuel : nat) : M unit :=
  when (RESET_IOP cfg)
    (SifInitRpc ;;
     spin_until fuel
       (SifIopReset (if IOP cfg then Some EmptyString else None)) ;;
     spin_until fuel SifIopSync ;;
     SifInitRpc) ;;
  _ <- applyRpcPatches ;;
  ret tt.

(** *** The per-module loaders *)

Definition loadLibsd (verbose : bool) : M unit :=
  when verbose (TYRA_LOG "IRX: Loading libsd...") ;;
  r <- SifExecModuleBuffer libsd_irx ;;
  TYRA_ASSERT (0 <=? r) "Failed to load module: libsd_irx" ;;
  when verbose (TYRA_LOG "IRX: Libsd loaded!").

(** The source declares [int ret] twice in [loadIO]; one variable is meant. *)
Definition loadIO (verbose : bool) : M unit :=
  when verbose (TYRA_LOG "IRX: Loading iomanX...") ;;
  r <- SifExecModuleBuffer iomanX_irx ;;
  TYRA_ASSERT (0 <=? r) "Failed to load module: iomanX_irx" ;;
  when verbose (TYRA_LOG "IRX: iomanX loaded!") ;;
  when verbose (TYRA_LOG "IRX: Loading fileXio...") ;;
  r <- SifExecModuleBuffer fileXio_irx ;;
  TYRA_ASSERT (0 <=? r) "Failed to load module: fileXio_irx" ;;
  when verbose (TYRA_LOG "IRX: fileXio_irx loaded!").

(** *** IrxLoader::delay and IrxLoader::waitUntilUsbDeviceIsReady *)

(** One round of the outer [for] loop: [ret = 0x01000000; while (ret--)]
    runs the four-nop block 0x01000000 times. *)
Fixpoint delay_rounds (n : nat) : M unit :=
  match n with
  | O => ret tt
  | S n' => emit (EvNops 16777216) ;; delay_rounds n'
  end.

Definition delay (count : Z) : M unit := delay_rounds (Z.to_nat count).

(** [while (ret != 0 && retries > 0) { ret = stat(..); nopdelay(); retries--; }]
    [retries] only counts down from 50 to 0, so it is a [nat] here. *)
Fixpoint wait_loop (r : Z) (retries : nat) : M unit :=
  match retries with
  | O => ret tt
  | S retries' =>
      if r =? 0 then ret tt
      else
        r' <- stat "mass:/" ;;
        nopdelay ;;
        wait_loop r' retries'
  end.

Definition waitUntilUsbDeviceIsReady : M unit :=
  delay 5 ;;
  wait_loop (-1) 50.

(** *** The optional batches *)

Definition loadUsbModules (verbose : bool) : M unit :=
  when verbose (TYRA_LOG "IRX: Loading usb modules...") ;;
  (if USE_USBDMINI cfg then
     r <- SifExecModuleBuffer usbd_mini_irx ;;
     TYRA_ASSERT (0 <=? r) "Failed to load module: usbd_irx" ;;
     r <- SifExecModuleBuffer usbmass_bd_mini_irx ;;
     TYRA_ASSERT (0 <=? r) "Failed to load module: usbmass"
   else
     r <- SifExecModuleBuffer usbd_irx ;;
     TYRA_ASSERT (0 <=? r) "Failed to load module: usbd_irx" ;;
     r <- SifExecModuleBuffer usbmass_bd_irx ;;
     TYRA_ASSERT (0 <=? r) "Failed to load module: usbmass") ;;
  r <- SifExecModuleBuffer bdm_irx ;;
  TYRA_ASSERT (0 <=? r) "Failed to load module: bdm_irx" ;;
  r <- SifExecModuleBuffer bdmfs_fatfs_irx ;;
  TYRA_ASSERT (0 <=? r) "Failed to load module: bdmfs_fatfs" ;;
  waitUntilUsbDeviceIsReady ;;
  when verbose (TYRA_LOG "IRX: Usb modules loaded!").

Definition loadHddModules (verbose : bool) : M unit :=
  when verbose (TYRA_LOG "IRX: Loading Hdd Modules!") ;;
  r <- SifExecModuleBuffer ps2hdd_irx ;;
  TYRA_ASSERT (0 <=? r) "Failed to load module: ps2hdd_irx" ;;
  r <- SifExecModuleBuffer ps2fs_irx ;;
  TYRA_ASSERT (0 <=? r) "Failed to load module: ps2fs_irx" ;;
  r <- SifExecModuleBuffer ps2dev9_irx ;;
  TYRA_ASSERT (0 <=? r) "Failed to load module: ps2dev9_irx" ;;
  when (ATAD cfg)
    (r <- SifExecModuleBuffer ps2atad_irx ;;
     TYRA_ASSERT (0 <=? r) "Failed to load module: ps2atad.irx") ;;
  when verbose (TYRA_LOG "IRX: Hdd modules loaded").

Definition loadAudsrv (verbose : bool) : M unit :=
  when verbose (TYRA_LOG "IRX: Loading audsrv...") ;;
  r <- SifExecModuleBuffer audsrv_irx ;;
  TYRA_ASSERT (0 <=? r) "Failed to load module: audsrv_irx" ;;
  when verbose (TYRA_LOG "IRX: Audsrv loaded!").

Definition loadSio2man (verbose : bool) : M unit :=
  when verbose (TYRA_LOG "IRX: Loading sio2man...") ;;
  r <- SifExecModuleBuffer sio2man_irx ;;
  TYRA_ASSERT (0 <=? r) "Failed to load module: sio2man_irx" ;;
  when verbose (TYRA_LOG "IRX: Sio2man loaded!").

Definition loadPadman (verbose : bool) : M unit :=
  when verbose (TYRA_LOG "IRX: Loading padman...") ;;
  r <- SifExecModuleBuffer padman_irx ;;
  TYRA_ASSERT (0 <=? r) "Failed to load module: padman_irx" ;;
  when verbose (TYRA_LOG "IRX: Padman loaded!").

(** *** IrxLoader::loadAll *)

Definition loadAll (withUsb withHdd isLoggingToFile : bool) : M unit :=
  loaded <- get_isLoaded ;;
  if loaded then
    TYRA_LOG "IRX modules already loaded!"
  else
    loadIO (negb isLoggingToFile) ;;
    loadSio2man (negb isLoggingToFile) ;;
    loadPadman (negb isLoggingToFile) ;;
    loadLibsd (negb isLoggingToFile) ;;
    when withUsb (loadUsbModules (negb isLoggingToFile)) ;;
    when withHdd (loadHddModules (negb isLoggingToFile)) ;;
    loadAudsrv true ;;
    set_isLoaded true.

End Program.

(** ** A client of the class

    A process uses the class through its public interface only: it constructs
    loaders and calls [loadAll], in any order and any number of times.  A halt
    or a hang ends the process. *)
Inductive Call : Type :=
| CallNew (fuel : nat)
| CallLoadAll (withUsb withHdd isLoggingToFile : bool).

Definition do_call (cfg : BuildConfig) (env : Environment) (c : Call)
  : M unit :=
  match c with
  | CallNew fuel => IrxLoader cfg env fuel
  | CallLoadAll withUsb withHdd isLoggingToFile =>
      loadAll cfg env withUsb withHdd isLoggingToFile
  end.

Fixpoint process (cfg : BuildConfig) (env : Environment) (cs : list Call)
  : M unit :=
  match cs with
  | [] => ret tt
  | c :: cs' => do_call cfg env c ;; process cfg env cs'
  end.

(** One bring-up run: construct the loader, then call [loadAll] on it. *)
Definition bringUp (cfg : BuildConfig) (env : Environment) (fuel : nat)
    (withUsb withHdd isLoggingToFile : bool) : M unit :=
  IrxLoader cfg env fuel ;;
  loadAll cfg env withUsb withHdd isLoggingToFile.

(** ** Reading a log *)

(** The module loads of a log, in order, with their status. *)
Fixpoint loads (evs : list Event) : list (Irx * Z) :=
  match evs with
  | [] => []
  | EvExecModule m r :: evs' => (m, r) :: loads evs'
  | _ :: evs' => loads evs'
  end.

Definition loaded_modules (evs : list Event) : list Irx := map fst (loads evs).

(** The capability toggles of a log, in order, with their status. *)
Fixpoint patches (evs : list Event) : list (SbvPatch * Z) :=
  match evs with
  | [] => []
  | EvSbvPatch p r :: evs' => (p, r) :: patches evs'
  | _ :: evs' => patches evs'
  end.

(** The results of the [stat] probes of a log, in order. *)
Fixpoint probes (evs : list Event) : list Z :=
  match evs with
  | [] => []
  | EvStat _ r :: evs' => r :: probes evs'
  | _ :: evs' => probes evs'
  end.

(** The lines written to the log channel, in order. *)
Fixpoint log_lines (evs : list Event) : list string :=
  match evs with
  | [] => []
  | EvLog s :: evs' => s :: log_lines evs'
  | _ :: evs' => log_lines evs'
  end.

(** The failed assertions of a log. *)
Fixpoint assert_failures (evs : list Event) : list string :=
  match evs with
  | [] => []
  | EvAssertFail s :: evs' => s :: assert_failures evs'
  | _ :: evs' => assert_failures evs'
  end.

(** A log without its log-channel lines: what the coprocessor saw. *)
Fixpoint without_logging (evs : list Event) : list Event :=
  match evs with
  | [] => []
  | EvLog _ :: evs' => without_logging evs'
  | e :: evs' => e :: without_logging evs'
  end.

(** ** Expected sequences, in the words of the design *)

(** Low-level I/O extensions, serial/controller I/O, pad input, sound. *)
Definition required_modules : list Irx :=
  [iomanX_irx; fileXio_irx; sio2man_irx; padman_irx; libsd_irx].

(** USB driver and mass-storage bridge, block-device manager, FAT. *)
Definition usb_batch (cfg : BuildConfig) : list Irx :=
  (if USE_USBDMINI cfg then [usbd_mini_irx; usbmass_bd_mini_irx]
   else [usbd_irx; usbmass_bd_irx]) ++ [bdm_irx; bdmfs_fatfs_irx].

(** HDD driver, filesystem, dev9 bridge, optional legacy ATA driver. *)
Definition hdd_batch (cfg : BuildConfig) : list Irx :=
  [ps2hdd_irx; ps2fs_irx; ps2dev9_irx] ++
  (if ATAD cfg then [ps2atad_irx] else []).

Definition bringup_sequence (cfg : BuildConfig) (withUsb withHdd : bool)
  : list Irx :=
  required_modules ++
  (if withUsb then usb_batch cfg else []) ++
  (if withHdd then hdd_batch cfg else []) ++
  [audsrv_irx].

(** The loader function of the source that issues the load of an image. *)
Inductive Loader : Type :=
| LoadIO | LoadSio2man | LoadPadman | LoadLibsd
| LoadUsbModules | LoadHddModules | LoadAudsrv.

Definition loader_of (m : Irx) : Loader :=
  match m with
  | iomanX_irx | fileXio_irx => LoadIO
  | sio2man_irx => LoadSio2man
  | padman_irx => LoadPadman
  | libsd_irx => LoadLibsd
  | usbd_mini_irx | usbmass_bd_mini_irx | usbd_irx | usbmass_bd_irx
  | bdm_irx | bdmfs_fatfs_irx => LoadUsbModules
  | ps2hdd_irx | ps2fs_irx | ps2dev9_irx | ps2atad_irx => LoadHddModules
  | audsrv_irx => LoadAudsrv
  end.

Definition Loader_eq_dec (a b : Loader) : {a = b} + {a <> b}.
Proof. decide equality. Defined.

(** The loader functions behind a list of loaded images, each named once, in
    the order of first use. *)
Definition loaders_used (ms : list Irx) : list Loader :=
  rev (nodup Loader_eq_dec (rev (map loader_of ms))).

(** The first two images of the USB batch, as the build selects them. *)
Definition usb_driver (cfg : BuildConfig) : Irx :=
  if USE_USBDMINI cfg then usbd_mini_irx else usbd_irx.

Definition usb_mass_storage_bridge (cfg : BuildConfig) : Irx :=
  if USE_USBDMINI cfg then usbmass_bd_mini_irx else usbmass_bd_irx.

(** [loaded_before a b ms]: wherever [b] occurs in [ms], [a] occurs earlier. *)
Definition loaded_before (a b : Irx) (ms : list Irx) : Prop :=
  forall pre post, ms = pre ++ b :: post -> In a pre.

(** [last_of_loader b ms]: no image of the same loader follows [b] in [ms]. *)
Definition last_of_loader (b : Irx) (ms : list Irx) : Prop :=
  forall pre post, ms = pre ++ b :: post ->
  forall m, In m post -> loader_of m <> loader_of b.

(** Decision procedures for the two orderings. *)
Fixpoint loaded_before_b (a b : Irx) (seen : bool) (ms : list Irx) : bool :=
  match ms with
  | [] => true
  | m :: ms' =>
      (if Irx_eqb m b then seen else true) &&
      loaded_before_b a b (seen || Irx_eqb m a) ms'
  end.

Fixpoint last_of_loader_b (b : Irx) (ms : list Irx) : bool :=
  match ms with
  | [] => true
  | m :: ms' =>
      (if Irx_eqb m b then
         forallb (fun x =>
                    if Loader_eq_dec (loader_of x) (loader_of b) then false
                    else true) ms'
       else true) &&
      last_of_loader_b b ms'
  end.

(** ** Sample platforms *)

(** Every call succeeds at once; the USB device is ready at the first probe. *)
Definition env_ok : Environment :=
  mkEnvironment (fun _ _ => true) (fun _ => true)
                (fun _ _ => 0) (fun _ _ => 0) (fun _ _ => 0).

(** As [env_ok], but the USB device never becomes ready. *)
Definition env_no_usb_device : Environment :=
  mkEnvironment (fun _ _ => true) (fun _ => true)
                (fun _ _ => 0) (fun _ _ => 0) (fun _ _ => -1).

(** As [env_ok], but the pad driver fails to start. *)
Definition env_padman_fails : Environment :=
  mkEnvironment (fun _ _ => true) (fun _ => true)
                (fun _ _ => 0)
                (fun _ m => if Irx_eqb m padman_irx then -1 else 0)
                (fun _ _ => 0).

(** As [env_ok], but the second capability toggle is refused. *)
Definition env_prefix_check_fails : Environment :=
  mkEnvironment (fun _ _ => true) (fun _ => true)
                (fun _ p => match p with
                            | sbv_patch_disable_prefix_check => -1
                            | _ => 0
                            end)
                (fun _ _ => 0) (fun _ _ => 0).

Definition cfg_default : BuildConfig := mkBuildConfig false false false false.
Definition cfg_full : BuildConfig := mkBuildConfig true true true true.

(** ** Outcomes

    The lemmas below describe a computation by the events it appends to the
    log.  [emits c P]: from every world, [c] appends some events [evs] to the
    log, leaves [isLoaded] alone, and its result and [evs] satisfy [P]. *)

Definition emits {A : Type} (c : M A) (P : Result A -> list Event -> Prop)
  : Prop :=
  forall w, exists evs,
    log (world_after c w) = log w ++ evs /\
    isLoaded (world_after c w) = isLoaded w /\
    P (result_of c w) evs.

(** The probe results a poll with [n] retries left can see: it stops at the
    first zero, or when the retries are used up. *)
Inductive poll_results : nat -> list Z -> Prop :=
| poll_exhausted : poll_results 0 []
| poll_ready (n : nat) : poll_results (S n) [0]
| poll_retry (n : nat) (r : Z) (rs : list Z) :
    r <> 0 -> poll_results n rs -> poll_results (S n) (r :: rs).

Definition probe_events (r : Z) : list Event := [EvStat "mass:/" r; EvNopDelay].

Definition wait_events (rs : list Z) : list Event :=
  repeat (EvNops 16777216) 5 ++ flat_map probe_events rs.

(** ** Scripts

    A script lists what a loader attempts, in order.  [runs p r evs] says
    that [evs] and [r] are a possible outcome of attempting [p]: every load
    with a status that is not negative goes on to the next item, the first
    negative status fails the assertion and ends the log. *)

(** An item: a log line, a module load with the message of its assertion, or
    the readiness poll. *)
Inductive Item : Type :=
| ILog (s : string)
| ILoad (m : Irx) (msg : string)
| IWait.

Inductive runs : list Item -> Result unit -> list Event -> Prop :=
| runs_done : runs [] (Ok tt) []
| runs_log (s : string) p r evs :
    runs p r evs -> runs (ILog s :: p) r (EvLog s :: evs)
| runs_load (m : Irx) (msg : string) (z : Z) p r evs :
    0 <= z -> runs p r evs ->
    runs (ILoad m msg :: p) r (EvExecModule m z :: evs)
| runs_fail (m : Irx) (msg : string) (z : Z) p :
    z < 0 ->
    runs (ILoad m msg :: p) (Halt msg) [EvExecModule m z; EvAssertFail msg]
| runs_wait (rs : list Z) p r evs :
    poll_results 50 rs -> runs p r evs ->
    runs (IWait :: p) r (wait_events rs ++ evs).

(** The modules, the log lines and the number of polls of a script. *)
Fixpoint script_modules (p : list Item) : list Irx :=
  match p with
  | [] => []
  | ILoad m _ :: p' => m :: script_modules p'
  | _ :: p' => script_modules p'
  end.

Fixpoint script_lines (p : list Item) : list string :=
  match p with
  | [] => []
  | ILog s :: p' => s :: script_lines p'
  | _ :: p' => script_lines p'
  end.

Fixpoint script_waits (p : list Item) : nat :=
  match p with
  | [] => O
  | IWait :: p' => S (script_waits p')
  | _ :: p' => script_waits p'
  end.

(** The scripts of the loaders. *)

Definition log_item (verbose : bool) (s : string) : list Item :=
  if verbose then [ILog s] else [].

Definition script_loadLibsd (verbose : bool) : list Item :=
  log_item verbose "IRX: Loading libsd..." ++
  ILoad libsd_irx "Failed to load module: libsd_irx" ::
  log_item verbose "IRX: Libsd loaded!".

Definition script_loadIO (verbose : bool) : list Item :=
  log_item verbose "IRX: Loading iomanX..." ++
  ILoad iomanX_irx "Failed to load module: iomanX_irx" ::
  log_item verbose "IRX: iomanX loaded!" ++
  log_item verbose "IRX: Loading fileXio..." ++
  ILoad fileXio_irx "Failed to load module: fileXio_irx" ::
  log_item verbose "IRX: fileXio_irx loaded!".

Definition script_loadUsbModules (cfg : BuildConfig) (verbose : bool)
  : list Item :=
  log_item verbose "IRX: Loading usb modules..." ++
  (if USE_USBDMINI cfg then
     [ILoad usbd_mini_irx "Failed to load module: usbd_irx";
      ILoad usbmass_bd_mini_irx "Failed to load module: usbmass"]
   else
     [ILoad usbd_irx "Failed to load module: usbd_irx";
      ILoad usbmass_bd_irx "Failed to load module: usbmass"]) ++
  ILoad bdm_irx "Failed to load module: bdm_irx" ::
  ILoad bdmfs_fatfs_irx "Failed to load module: bdmfs_fatfs" ::
  [IWait] ++
  log_item verbose "IRX: Usb modules loaded!".

Definition script_loadHddModules (cfg : BuildConfig) (verbose : bool)
  : list Item :=
  log_item verbose "IRX: Loading Hdd Modules!" ++
  ILoad ps2hdd_irx "Failed to load module: ps2hdd_irx" ::
  ILoad ps2fs_irx "Failed to load module: ps2fs_irx" ::
  ILoad ps2dev9_irx "Failed to load module: ps2dev9_irx" ::
  (if ATAD cfg then [ILoad ps2atad_irx "Failed to load module: ps2atad.irx"]
   else []) ++
  log_item verbose "IRX: Hdd modules loaded".

Definition script_loadAudsrv (verbose : bool) : list Item :=
  log_item verbose "IRX: Loading audsrv..." ++
  ILoad audsrv_irx "Failed to load module: audsrv_irx" ::
  log_item verbose "IRX: Audsrv loaded!".

Definition script_loadSio2man (verbose : bool) : list Item :=
  log_item verbose "IRX: Loading sio2man..." ++
  ILoad sio2man_irx "Failed to load module: sio2man_irx" ::
  log_item verbose "IRX: Sio2man loaded!".

Definition script_loadPadman (verbose : bool) : list Item :=
  log_item verbose "IRX: Loading padman..." ++
  ILoad padman_irx "Failed to load module: padman_irx" ::
  log_item verbose "IRX: Padman loaded!".

Definition script_loadAll (cfg : BuildConfig)
    (withUsb withHdd isLoggingToFile : bool) : list Item :=
  script_loadIO (negb isLoggingToFile) ++
  script_loadSio2man (negb isLoggingToFile) ++
  script_loadPadman (negb isLoggingToFile) ++
  script_loadLibsd (negb isLoggingToFile) ++
  (if withUsb then script_loadUsbModules cfg (negb isLoggingToFile) else []) ++
  (if withHdd then script_loadHddModules cfg (negb isLoggingToFile) else []) ++
  script_loadAudsrv true.

(** [completes c p]: [c] follows [p] and sets [isLoaded] exactly when it
    returns. *)
Definition completes (c : M unit) (p : list Item) : Prop :=
  forall w, exists evs,
    log (world_after c w) = log w ++ evs /\
    runs p (result_of c w) evs /\
    isLoaded (world_after c w) =
      match result_of c w with Ok _ => true | _ => isLoaded w end.

(** What a call of [loadAll] attempts, given the flag it finds. *)
Definition script_of_call (cfg : BuildConfig)
    (loaded withUsb withHdd isLoggingToFile : bool) : list Item :=
  if loaded then [ILog "IRX modules already loaded!"]
  else script_loadAll cfg withUsb withHdd isLoggingToFile.

(** ** Outcomes of the patch applier and of the constructor *)

(** The outcomes of [applyRpcPatches]. *)
Inductive patch_run : Result Z -> list Event -> Prop :=
| patch_fail_lmb (r1 : Z) :
    r1 < 0 ->
    patch_run
      (Halt "Failed to load Applying SBV Patches sbv_patch_enable_lmb")
      [EvSbvPatch sbv_patch_enable_lmb r1;
       EvAssertFail "Failed to load Applying SBV Patches sbv_patch_enable_lmb"]
| patch_fail_prefix_check (r1 r2 : Z) :
    0 <= r1 -> r2 < 0 ->
    patch_run
      (Halt "Failed to load Applying SBV Patches sbv_patch_disable_prefix_check")
      [EvSbvPatch sbv_patch_enable_lmb r1;
       EvSbvPatch sbv_patch_disable_prefix_check r2;
       EvAssertFail
         "Failed to load Applying SBV Patches sbv_patch_disable_prefix_check"]
| patch_fail_fileio (r1 r2 r3 : Z) :
    0 <= r1 -> 0 <= r2 -> r3 < 0 ->
    patch_run
      (Halt "Failed to load Applying SBV Patches sbv_patch_fileio")
      [EvSbvPatch sbv_patch_enable_lmb r1;
       EvSbvPatch sbv_patch_disable_prefix_check r2;
       EvSbvPatch sbv_patch_fileio r3;
       EvAssertFail "Failed to load Applying SBV Patches sbv_patch_fileio"]
| patch_all (r1 r2 r3 : Z) :
    0 <= r1 -> 0 <= r2 -> 0 <= r3 ->
    patch_run (Ok r3)
      [EvSbvPatch sbv_patch_enable_lmb r1;
       EvSbvPatch sbv_patch_disable_prefix_check r2;
       EvSbvPatch sbv_patch_fileio r3].

(** The outcomes of [while (!poll()) {}] with [fuel] polls at hand. *)
Inductive spin_run (failed succeeded : Event) (fuel : nat)
  : Result unit -> list Event -> Prop :=
| spin_done (n : nat) :
    (n < fuel)%nat ->
    spin_run failed succeeded fuel (Ok tt) (repeat failed n ++ [succeeded])
| spin_out :
    spin_run failed succeeded fuel Spin (repeat failed fuel).

(** The argument of [SifIopReset]: an empty string under [IOP], else null. *)
Definition reset_arg (cfg : BuildConfig) : option string :=
  if IOP cfg then Some EmptyString else None.

(** Reset and resynchronisation after [n] refused resets and [m] refused
    syncs. *)
Definition reset_events (arg : option string) (n m : nat) : list Event :=
  EvSifInitRpc ::
  repeat (EvSifIopReset arg false) n ++
  EvSifIopReset arg true ::
  repeat (EvSifIopSync false) m ++
  [EvSifIopSync true; EvSifInitRpc].

(** The outcomes of the [RESET_IOP] block of the constructor. *)
Inductive reset_run (arg : option string) (fuel : nat)
  : Result unit -> list Event -> Prop :=
| reset_done (n m : nat) :
    (n < fuel)%nat -> (m < fuel)%nat ->
    reset_run arg fuel (Ok tt) (reset_events arg n m)
| reset_hangs :
    reset_run arg fuel Spin
      (EvSifInitRpc :: repeat (EvSifIopReset arg false) fuel)
| sync_hangs (n : nat) :
    (n < fuel)%nat ->
    reset_run arg fuel Spin
      (EvSifInitRpc ::
       repeat (EvSifIopReset arg false) n ++
       EvSifIopReset arg true :: repeat (EvSifIopSync false) fuel).

(** The constructor drops the status [applyRpcPatches] returns. *)
Definition drop_status (r : Result Z) : Result unit :=
  match r with
  | Ok _ => Ok tt
  | Halt msg => Halt msg
  | Spin => Spin
  end.

(** The outcomes of the constructor. *)
Inductive ctor_run (cfg : BuildConfig) (fuel : nat)
  : Result unit -> list Event -> Prop :=
| ctor_plain (rz : Result Z) (evs : list Event) :
    RESET_IOP cfg = false -> patch_run rz evs ->
    ctor_run cfg fuel (drop_status rz) evs
| ctor_reset (n m : nat) (rz : Result Z) (evs : list Event) :
    RESET_IOP cfg = true -> (n < fuel)%nat -> (m < fuel)%nat ->
    patch_run rz evs ->
    ctor_run cfg fuel (drop_status rz)
             (reset_events (reset_arg cfg) n m ++ evs)
| ctor_hangs (evs : list Event) :
    RESET_IOP cfg = true -> reset_run (reset_arg cfg) fuel Spin evs ->
    ctor_run cfg fuel Spin evs.

(** ** Orderings inside the batches *)

(** The five orderings the batches are built on. *)
Definition batch_order (cfg : BuildConfig) (ms : list Irx) : Prop :=
  loaded_before (usb_driver cfg) bdm_irx ms /\
  loaded_before (usb_mass_storage_bridge cfg) bdm_irx ms /\
  loaded_before bdm_irx bdmfs_fatfs_irx ms /\
  last_of_loader bdmfs_fatfs_irx ms /\
  loaded_before ps2hdd_irx ps2fs_irx ms.

(** ** Logging as a side channel

    Two worlds are alike when they agree on the flag and on everything in the
    log but the log-channel lines.  [sim c1 c2]: from alike worlds, [c1] and
    [c2] end the same way in alike worlds. *)

Definition env_ignores_logging (env : Environment) : Prop :=
  forall h1 h2,
    without_logging h1 = without_logging h2 ->
    (forall a, env_SifIopReset env h1 a = env_SifIopReset env h2 a) /\
    env_SifIopSync env h1 = env_SifIopSync env h2 /\
    (forall p, env_sbv_patch env h1 p = env_sbv_patch env h2 p) /\
    (forall m, env_SifExecModuleBuffer env h1 m =
               env_SifExecModuleBuffer env h2 m) /\
    (forall s, env_stat env h1 s = env_stat env h2 s).

Definition alike (w1 w2 : World) : Prop :=
  isLoaded w1 = isLoaded w2 /\
  without_logging (log w1) = without_logging (log w2).

Definition sim {A : Type} (c1 c2 : M A) : Prop :=
  forall w1 w2,
    alike w1 w2 ->
    result_of c1 w1 = result_of c2 w2 /\
    alike (world_after c1 w1) (world_after c2 w2).

(** From any point on, the I/O processor acknowledges a reset, and a sync,
    after fewer than [fuel] refusals. *)
Definition acks_within (fuel : nat) (env : Environment) (arg : option string)
  : Prop :=
  (forall h, exists n,
     (n < fuel)%nat /\
     env_SifIopReset env (h ++ repeat (EvSifIopReset arg false) n) arg = true) /\
  (forall h, exists n,
     (n < fuel)%nat /\
     env_SifIopSync env (h ++ repeat (EvSifIopSync false) n) = true).

(** ** Diagnostics *)

(** The message of the assertion that follows the load of each image, as the
    source spells it.  Both USB driver variants share one message, and so do
    both mass-storage bridge variants. *)
Definition assert_message (m : Irx) : string :=
  match m with
  | sio2man_irx => "Failed to load module: sio2man_irx"
  | padman_irx => "Failed to load module: padman_irx"
  | audsrv_irx => "Failed to load module: audsrv_irx"
  | libsd_irx => "Failed to load module: libsd_irx"
  | fileXio_irx => "Failed to load module: fileXio_irx"
  | iomanX_irx => "Failed to load module: iomanX_irx"
  | bdm_irx => "Failed to load module: bdm_irx"
  | bdmfs_fatfs_irx => "Failed to load module: bdmfs_fatfs"
  | usbd_mini_irx | usbd_irx => "Failed to load module: usbd_irx"
  | usbmass_bd_irx | usbmass_bd_mini_irx => "Failed to load module: usbmass"
  | ps2hdd_irx => "Failed to load module: ps2hdd_irx"
  | ps2fs_irx => "Failed to load module: ps2fs_irx"
  | ps2dev9_irx => "Failed to load module: ps2dev9_irx"
  | ps2atad_irx => "Failed to load module: ps2atad.irx"
  end.


(** ** More sample platforms *)

(** As [env_ok], but the I/O processor refuses every reset. *)
Definition env_reset_refused : Environment :=
  mkEnvironment (fun _ _ => false) (fun _ => true)
                (fun _ _ => 0) (fun _ _ => 0) (fun _ _ => 0).

(** As [env_ok], but the I/O processor never reports that it is in sync. *)
Definition env_sync_refused : Environment :=
  mkEnvironment (fun _ _ => true) (fun _ => false)
                (fun _ _ => 0) (fun _ _ => 0) (fun _ _ => 0).

(** The invariant that ties [isLoaded] to the log of a process: with the flag
    set, the log holds one whole bring-up sequence, every load of it with a
    status that is not negative; with the flag clear, nothing is loaded. *)
Definition flag_matches_log (cfg : BuildConfig) (w : World) : Prop :=
  (isLoaded w = true ->
   exists withUsb withHdd,
     loaded_modules (log w) = bringup_sequence cfg withUsb withHdd /\
     Forall (fun x => 0 <= snd x) (loads (log w))) /\
  (isLoaded w = false -> loads (log w) = []).

(** ** Sanity checks by evaluation *)

Example loadAll_plain_run :
  emitted (loadAll cfg_default env_ok false false true) initial_world =
  [EvExecModule iomanX_irx 0; EvExecModule fileXio_irx 0;
   EvExecModule sio2man_irx 0; EvExecModule padman_irx 0;
   EvExecModule libsd_irx 0;
   EvLog "IRX: Loading audsrv..."; EvExecModule audsrv_irx 0;
   EvLog "IRX: Audsrv loaded!"].
Proof. vm_compute. reflexivity. Qed.

Example loadAll_usb_modules :
  loaded_modules (emitted (loadAll cfg_default env_ok true true true)
                          initial_world) =
  [iomanX_irx; fileXio_irx; sio2man_irx; padman_irx; libsd_irx;
   usbd_irx; usbmass_bd_irx; bdm_irx; bdmfs_fatfs_irx;
   ps2hdd_irx; ps2fs_irx; ps2dev9_irx; audsrv_irx].
Proof. vm_compute. reflexivity. Qed.

Example loadAll_padman_fails :
  loadAll cfg_default env_padman_fails true true true initial_world =
  (Halt "Failed to load module: padman_irx",
   mkWorld false
     [EvExecModule iomanX_irx 0; EvExecModule fileXio_irx 0;
      EvExecModule sio2man_irx 0; EvExecModule padman_irx (-1);
      EvAssertFail "Failed to load module: padman_irx"]).
Proof. vm_compute. reflexivity. Qed.

Example wait_never_ready :
  List.length (probes (emitted (waitUntilUsbDeviceIsReady env_no_usb_device)
                          initial_world)) = 50%nat.
Proof. vm_compute. reflexivity. Qed.

Example ctor_full_reset :
  emitted (IrxLoader cfg_full env_ok 1) initial_world =
  [EvSifInitRpc; EvSifIopReset (Some EmptyString) true; EvSifIopSync true;
   EvSifInitRpc;
   EvSbvPatch sbv_patch_enable_lmb 0;
   EvSbvPatch sbv_patch_disable_prefix_check 0;
   EvSbvPatch sbv_patch_fileio 0].
Proof. vm_compute. reflexivity. Qed.

(** ** Facts about logs *)

Section LogFacts.

Local Ltac by_cases_on_head a :=
  induction a as [| e a IH]; [| destruct e]; simpl; try rewrite IH;
  reflexivity.

Lemma loads_app (a b : list Event) : loads (a ++ b) = loads a ++ loads b.
Proof. by_cases_on_head a. Qed.

Lemma patches_app (a b : list Event) :
  patches (a ++ b) = patches a ++ patches b.
Proof. by_cases_on_head a. Qed.

Lemma probes_app (a b : list Event) : probes (a ++ b) = probes a ++ probes b.
Proof. by_cases_on_head a. Qed.

Lemma log_lines_app (a b : list Event) :
  log_lines (a ++ b) = log_lines a ++ log_lines b.
Proof. by_cases_on_head a. Qed.

Lemma assert_failures_app (a b : list Event) :
  assert_failures (a ++ b) = assert_failures a ++ assert_failures b.
Proof. by_cases_on_head a. Qed.

Lemma without_logging_app (a b : list Event) :
  without_logging (a ++ b) = without_logging a ++ without_logging b.
Proof. by_cases_on_head a. Qed.

Lemma loaded_modules_app (a b : list Event) :
  loaded_modules (a ++ b) = loaded_modules a ++ loaded_modules b.
Proof. unfold loaded_modules. rewrite loads_app. apply map_app. Qed.

Lemma loads_without_logging (a : list Event) :
  loads (without_logging a) = loads a.
Proof. by_cases_on_head a. Qed.

Lemma In_loads (m : Irx) (z : Z) (evs : list Event) :
  In (m, z) (loads evs) <-> In (EvExecModule m z) evs.
Proof.
  induction evs as [| e evs IH]; simpl; [tauto |].
  destruct e; simpl; rewrite IH;
    try (split; [auto | intros [H | H]; [discriminate | auto]]).
  split; intros [H | H]; auto; inversion H; auto.
Qed.

End LogFacts.

Create Rewrite HintDb logs.

#[local] Hint Rewrite loads_app patches_app probes_app log_lines_app
  assert_failures_app without_logging_app loaded_modules_app : logs.

(** ** Rules for [emits] *)

Lemma emitted_eq {A : Type} (c : M A) (w : World) (evs : list Event) :
  log (world_after c w) = log w ++ evs -> emitted c w = evs.
Proof.
  intros H. unfold emitted. rewrite H.
  rewrite skipn_app, skipn_all, Nat.sub_diag. reflexivity.
Qed.

Lemma emits_emitted {A : Type} (c : M A) P :
  emits c P ->
  forall w,
    log (world_after c w) = log w ++ emitted c w /\
    isLoaded (world_after c w) = isLoaded w /\
    P (result_of c w) (emitted c w).
Proof.
  intros H w. destruct (H w) as (evs & Hl & Hf & HP).
  rewrite (emitted_eq c w evs Hl). auto.
Qed.

Lemma emits_weaken {A : Type} (c : M A) (P Q : Result A -> list Event -> Prop) :
  emits c P -> (forall r evs, P r evs -> Q r evs) -> emits c Q.
Proof.
  intros H HPQ w. destruct (H w) as (evs & Hl & Hf & HP). eauto.
Qed.

Lemma emits_ret {A : Type} (a : A) (P : Result A -> list Event -> Prop) :
  P (Ok a) [] -> emits (ret a) P.
Proof.
  intros H w. exists []. unfold world_after, result_of, ret. simpl.
  rewrite app_nil_r. auto.
Qed.

Lemma emits_bind {A B : Type} (c : M A) (k : A -> M B)
    (P : Result A -> list Event -> Prop)
    (Q : A -> Result B -> list Event -> Prop)
    (R : Result B -> list Event -> Prop) :
  emits c P ->
  (forall a, emits (k a) (Q a)) ->
  (forall a e1 r e2, P (Ok a) e1 -> Q a r e2 -> R r (e1 ++ e2)) ->
  (forall msg e, P (Halt msg) e -> R (Halt msg) e) ->
  (forall e, P Spin e -> R Spin e) ->
  emits (bind c k) R.
Proof.
  intros Hc Hk Hok Hhalt Hspin w.
  destruct (Hc w) as (e1 & Hl1 & Hf1 & HP).
  unfold world_after, result_of, bind in *.
  destruct (c w) as [[a | msg |] w1]; simpl in *.
  - destruct (Hk a w1) as (e2 & Hl2 & Hf2 & HQ).
    unfold world_after, result_of in *.
    exists (e1 ++ e2). rewrite Hl2, Hl1, Hf2, Hf1, app_assoc. eauto.
  - exists e1. auto.
  - exists e1. auto.
Qed.

Lemma emits_emit (e : Event) :
  emits (emit e) (fun r evs => r = Ok tt /\ evs = [e]).
Proof. intros w. exists [e]. cbn. auto. Qed.

(** ** The readiness poll *)

Lemma poll_results_length (n : nat) (rs : list Z) :
  poll_results n rs -> (List.length rs <= n)%nat.
Proof. induction 1; simpl; lia. Qed.

Lemma poll_results_stop (n : nat) (rs : list Z) :
  poll_results n rs ->
  forall pre r post, rs = pre ++ r :: post -> r = 0 -> post = [].
Proof.
  induction 1 as [| n | n r0 rs Hr0 Hrs IH]; intros pre r post E Hr.
  - destruct pre; discriminate.
  - destruct pre as [| x pre]; simpl in E; inversion E; auto.
    destruct pre; discriminate.
  - destruct pre as [| x pre]; simpl in E; inversion E; subst.
    + contradiction.
    + eapply IH; eauto.
Qed.

Lemma poll_results_full (n : nat) (rs : list Z) :
  poll_results n rs -> Forall (fun r => r <> 0) rs -> List.length rs = n.
Proof.
  induction 1 as [| n | n r0 rs Hr0 Hrs IH]; intros Hall; simpl; auto.
  - inversion Hall; subst. contradiction.
  - inversion Hall; subst. rewrite IH; auto.
Qed.

Lemma probes_wait_events (rs : list Z) : probes (wait_events rs) = rs.
Proof.
  unfold wait_events. rewrite probes_app. simpl.
  induction rs as [| r rs IH]; simpl; congruence.
Qed.

Lemma loads_wait_events (rs : list Z) : loads (wait_events rs) = [].
Proof.
  unfold wait_events. rewrite loads_app. simpl.
  induction rs as [| r rs IH]; simpl; congruence.
Qed.

Lemma patches_wait_events (rs : list Z) : patches (wait_events rs) = [].
Proof.
  unfold wait_events. rewrite patches_app. simpl.
  induction rs as [| r rs IH]; simpl; congruence.
Qed.

Lemma log_lines_wait_events (rs : list Z) : log_lines (wait_events rs) = [].
Proof.
  unfold wait_events. rewrite log_lines_app. simpl.
  induction rs as [| r rs IH]; simpl; congruence.
Qed.

Lemma assert_failures_wait_events (rs : list Z) :
  assert_failures (wait_events rs) = [].
Proof.
  unfold wait_events. rewrite assert_failures_app. simpl.
  induction rs as [| r rs IH]; simpl; congruence.
Qed.

#[local] Hint Rewrite probes_wait_events loads_wait_events patches_wait_events
  log_lines_wait_events assert_failures_wait_events : logs.

Section PollFacts.

Variable env : Environment.

Lemma emits_delay_rounds (n : nat) :
  emits (delay_rounds n)
        (fun r evs => r = Ok tt /\ evs = repeat (EvNops 16777216) n).
Proof.
  induction n as [| n IH]; simpl.
  - apply emits_ret. auto.
  - eapply emits_bind; [apply emits_emit | intros ?; apply IH | | |].
    + intros a e1 r e2 [_ H1] [H2 H3]. subst. auto.
    + intros msg e [H _]. discriminate.
    + intros e [H _]. discriminate.
Qed.

Lemma wait_loop_ready (retries : nat) : wait_loop env 0 retries = ret tt.
Proof. destruct retries; reflexivity. Qed.

Lemma emits_wait_loop (retries : nat) :
  forall r0, r0 <> 0 ->
  emits (wait_loop env r0 retries)
        (fun r evs => r = Ok tt /\
           exists rs, poll_results retries rs /\
                      evs = flat_map probe_events rs).
Proof.
  induction retries as [| n IH]; intros r0 Hr0; simpl.
  - apply emits_ret. split; auto. exists []. split; [constructor | reflexivity].
  - destruct (Z.eqb_spec r0 0) as [E | _]; [contradiction |].
    intros w.
    remember (env_stat env (log w) "mass:/") as r1 eqn:Hr1.
    set (w1 := mkWorld (isLoaded w)
                 ((log w ++ [EvStat "mass:/" r1]) ++ [EvNopDelay])).
    assert (Hstep : (r' <- stat env "mass:/" ;; nopdelay ;;
                     wait_loop env r' n) w = wait_loop env r1 n w1).
    { subst r1. reflexivity. }
    unfold world_after, result_of. rewrite Hstep.
    destruct (Z.eq_dec r1 0) as [E | N].
    + rewrite E, wait_loop_ready. exists (probe_events r1).
      unfold w1, probe_events. simpl. rewrite <- app_assoc. simpl.
      split; [reflexivity | split; [reflexivity |]].
      split; [reflexivity |].
      exists [0]. rewrite E. split; [constructor | reflexivity].
    + destruct (IH r1 N w1) as (evs & Hl & Hf & Hr & rs & Hrs & Hevs).
      unfold world_after, result_of in *.
      exists (probe_events r1 ++ evs).
      split; [| split; [| split]].
      * rewrite Hl. unfold w1, probe_events. simpl.
        rewrite <- !app_assoc. reflexivity.
      * rewrite Hf. reflexivity.
      * exact Hr.
      * exists (r1 :: rs). split; [constructor; auto |].
        simpl. rewrite Hevs. reflexivity.
Qed.

Lemma emits_waitUntilUsbDeviceIsReady :
  emits (waitUntilUsbDeviceIsReady env)
        (fun r evs => r = Ok tt /\
           exists rs, poll_results 50 rs /\ evs = wait_events rs).
Proof.
  unfold waitUntilUsbDeviceIsReady, delay.
  eapply emits_bind;
    [apply emits_delay_rounds
    | intros ?; apply (emits_wait_loop 50); lia | | |].
  - intros a e1 r e2 [_ H1] (H2 & rs & Hrs & H3). subst.
    split; auto. exists rs. split; auto.
  - intros msg e [H _]. discriminate.
  - intros e [H _]. discriminate.
Qed.

End PollFacts.

(** ** Composing runs *)

#[local] Hint Constructors runs poll_results : core.

Lemma script_modules_app (p q : list Item) :
  script_modules (p ++ q) = script_modules p ++ script_modules q.
Proof.
  induction p as [| i p IH]; [| destruct i]; simpl; try rewrite IH; reflexivity.
Qed.

Lemma runs_app_ok p e1 :
  runs p (Ok tt) e1 ->
  forall q r e2, runs q r e2 -> runs (p ++ q) r (e1 ++ e2).
Proof.
  intros H. remember (Ok tt) as r0 eqn:Hr0.
  induction H as [| s p r evs H IH | m msg z p r evs Hz H IH | m msg z p Hz
                  | rs p r evs Hrs H IH];
    intros q r' e2 Hq; try discriminate; try rewrite <- !app_comm_cons.
  - assumption.
  - constructor. apply IH; assumption.
  - constructor; [assumption | apply IH; assumption].
  - rewrite <- app_assoc. constructor; [assumption | apply IH; assumption].
Qed.

Lemma runs_app_halt p msg e :
  runs p (Halt msg) e -> forall q, runs (p ++ q) (Halt msg) e.
Proof.
  intros H. remember (Halt msg) as r0 eqn:Hr0.
  induction H as [| s p r evs H IH | m msg' z p r evs Hz H IH | m msg' z p Hz
                  | rs p r evs Hrs H IH];
    intros q; try discriminate; rewrite <- app_comm_cons.
  - constructor. apply IH; assumption.
  - constructor; [assumption | apply IH; assumption].
  - inversion Hr0; subst. constructor; assumption.
  - constructor; [assumption | apply IH; assumption].
Qed.

Lemma runs_no_spin p r evs : runs p r evs -> r <> Spin.
Proof. induction 1; auto; discriminate. Qed.

Lemma runs_ok_unit p (a : unit) evs : runs p (Ok a) evs -> runs p (Ok tt) evs.
Proof. destruct a. auto. Qed.

(** ** The loaders follow their scripts *)

Section LoadersFollowScripts.

Variable cfg : BuildConfig.
Variable env : Environment.

Lemma emits_seq (c k : M unit) (p q : list Item) :
  emits c (runs p) -> emits k (runs q) -> emits (c ;; k) (runs (p ++ q)).
Proof.
  intros Hc Hk.
  apply emits_bind with (P := runs p) (Q := fun _ => runs q); auto.
  - intros [] e1 r e2 H1 H2. apply runs_app_ok; auto.
  - intros msg e H. apply runs_app_halt; auto.
  - intros e H. apply runs_no_spin in H. contradiction.
Qed.

Lemma emits_load_last (m : Irx) (msg : string) :
  emits (r <- SifExecModuleBuffer env m ;; TYRA_ASSERT (0 <=? r) msg)
        (runs [ILoad m msg]).
Proof.
  intros w. unfold world_after, result_of, bind, SifExecModuleBuffer,
    TYRA_ASSERT. simpl.
  set (z := env_SifExecModuleBuffer env (log w) m).
  destruct (Z.leb_spec 0 z) as [H | H]; simpl.
  - exists [EvExecModule m z].
    split; [reflexivity | split; [reflexivity |]].
    apply runs_load; [assumption | constructor].
  - exists [EvExecModule m z; EvAssertFail msg].
    split; [rewrite <- app_assoc; reflexivity | split; [reflexivity |]].
    apply runs_fail; assumption.
Qed.

Lemma emits_load_then (m : Irx) (msg : string) (k : M unit) (q : list Item) :
  emits k (runs q) ->
  emits (r <- SifExecModuleBuffer env m ;; TYRA_ASSERT (0 <=? r) msg ;; k)
        (runs (ILoad m msg :: q)).
Proof.
  intros Hk w. unfold world_after, result_of, bind, SifExecModuleBuffer,
    TYRA_ASSERT. simpl.
  set (z := env_SifExecModuleBuffer env (log w) m).
  destruct (Z.leb_spec 0 z) as [H | H]; simpl.
  - match goal with |- context [k ?w1] =>
      destruct (Hk w1) as (evs & Hl & Hf & Hr) end.
    unfold world_after, result_of in *. simpl in *.
    exists (EvExecModule m z :: evs). rewrite Hl, Hf, <- app_assoc. simpl.
    split; [reflexivity | split; [reflexivity |]].
    apply runs_load; assumption.
  - exists [EvExecModule m z; EvAssertFail msg].
    split; [rewrite <- app_assoc; reflexivity | split; [reflexivity |]].
    apply runs_fail; assumption.
Qed.

Lemma emits_log (verbose : bool) (s : string) :
  emits (when verbose (TYRA_LOG s)) (runs (log_item verbose s)).
Proof.
  destruct verbose; simpl.
  - intros w. exists [EvLog s]. cbn. auto.
  - apply emits_ret. auto.
Qed.

Lemma emits_when (b : bool) (c : M unit) (p : list Item) :
  emits c (runs p) -> emits (when b c) (runs (if b then p else [])).
Proof. destruct b; simpl; auto. intros _. apply emits_ret. auto. Qed.

Lemma emits_wait : emits (waitUntilUsbDeviceIsReady env) (runs [IWait]).
Proof.
  eapply emits_weaken; [apply emits_waitUntilUsbDeviceIsReady |].
  intros r evs (-> & rs & Hrs & ->).
  rewrite <- (app_nil_r (wait_events rs)). auto.
Qed.

Local Ltac follow :=
  repeat first
    [ apply emits_load_then
    | apply emits_load_last
    | apply emits_log
    | apply emits_wait
    | apply emits_seq ].

Lemma loadLibsd_follows (verbose : bool) :
  emits (loadLibsd env verbose) (runs (script_loadLibsd verbose)).
Proof. unfold loadLibsd, script_loadLibsd. follow. Qed.

Lemma loadIO_follows (verbose : bool) :
  emits (loadIO env verbose) (runs (script_loadIO verbose)).
Proof. unfold loadIO, script_loadIO. follow. Qed.

Lemma loadSio2man_follows (verbose : bool) :
  emits (loadSio2man env verbose) (runs (script_loadSio2man verbose)).
Proof. unfold loadSio2man, script_loadSio2man. follow. Qed.

Lemma loadPadman_follows (verbose : bool) :
  emits (loadPadman env verbose) (runs (script_loadPadman verbose)).
Proof. unfold loadPadman, script_loadPadman. follow. Qed.

Lemma loadAudsrv_follows (verbose : bool) :
  emits (loadAudsrv env verbose) (runs (script_loadAudsrv verbose)).
Proof. unfold loadAudsrv, script_loadAudsrv. follow. Qed.

Lemma loadUsbModules_follows (verbose : bool) :
  emits (loadUsbModules cfg env verbose)
        (runs (script_loadUsbModules cfg verbose)).
Proof.
  unfold loadUsbModules, script_loadUsbModules.
  apply emits_seq; [apply emits_log |].
  apply emits_seq; [destruct (USE_USBDMINI cfg); follow |].
  follow.
Qed.

Lemma loadHddModules_follows (verbose : bool) :
  emits (loadHddModules cfg env verbose)
        (runs (script_loadHddModules cfg verbose)).
Proof.
  unfold loadHddModules, script_loadHddModules.
  apply emits_seq; [apply emits_log |].
  do 3 apply emits_load_then.
  apply emits_seq; [| apply emits_log].
  destruct (ATAD cfg); simpl; [follow | apply emits_ret; auto].
Qed.

End LoadersFollowScripts.

(** ** What a run of a script looks like *)

Section RunFacts.

Lemma runs_ok_modules p a evs :
  runs p (Ok a) evs ->
  loaded_modules evs = script_modules p /\
  Forall (fun x => 0 <= snd x) (loads evs) /\
  assert_failures evs = [] /\
  log_lines evs = script_lines p.
Proof.
  intros H. remember (Ok a) as r0 eqn:Hr0.
  induction H as [| s p r evs H IH | m msg z p r evs Hz H IH | m msg z p Hz
                  | rs p r evs Hrs H IH]; try discriminate.
  - repeat split; constructor.
  - destruct (IH Hr0) as (H1 & H2 & H3 & H4). simpl.
    repeat split; auto. congruence.
  - destruct (IH Hr0) as (H1 & H2 & H3 & H4). unfold loaded_modules in *.
    simpl. repeat split; auto. congruence.
  - destruct (IH Hr0) as (H1 & H2 & H3 & H4).
    unfold loaded_modules in *. autorewrite with logs. simpl.
    repeat split; auto.
Qed.

Lemma runs_halt_shape p msg evs :
  runs p (Halt msg) evs ->
  exists pre m z q,
    evs = pre ++ [EvExecModule m z; EvAssertFail msg] /\
    z < 0 /\
    Forall (fun x => 0 <= snd x) (loads pre) /\
    assert_failures pre = [] /\
    script_modules p = loaded_modules pre ++ m :: q.
Proof.
  intros H. remember (Halt msg) as r0 eqn:Hr0.
  induction H as [| s p r evs H IH | m msg' z p r evs Hz H IH | m msg' z p Hz
                  | rs p r evs Hrs H IH]; try discriminate.
  - destruct (IH Hr0) as (pre & m & z & q & E & Hz & Hall & Ha & Hs).
    exists (EvLog s :: pre), m, z, q. subst evs. simpl. auto.
  - destruct (IH Hr0) as (pre & m0 & z0 & q & E & Hz0 & Hall & Ha & Hs).
    exists (EvExecModule m z :: pre), m0, z0, q. subst evs.
    unfold loaded_modules in *. simpl. repeat split; auto. congruence.
  - inversion Hr0; subst. exists [], m, z, (script_modules p). simpl. auto.
  - destruct (IH Hr0) as (pre & m & z & q & E & Hz & Hall & Ha & Hs).
    exists (wait_events rs ++ pre), m, z, q. subst evs.
    unfold loaded_modules in *. autorewrite with logs. simpl.
    rewrite app_assoc. auto.
Qed.

(** Whatever the outcome, the modules loaded are an initial part of the
    script's modules. *)
Lemma runs_modules_prefix p r evs :
  runs p r evs -> exists q, script_modules p = loaded_modules evs ++ q.
Proof.
  induction 1 as [| s p r evs H IH | m msg z p r evs Hz H IH | m msg z p Hz
                  | rs p r evs Hrs H IH].
  - exists []. reflexivity.
  - exact IH.
  - destruct IH as (q & E). exists q. unfold loaded_modules in *. simpl.
    congruence.
  - exists (script_modules p). reflexivity.
  - destruct IH as (q & E). exists q. unfold loaded_modules in *.
    autorewrite with logs. simpl. exact E.
Qed.

Lemma runs_lines_prefix p r evs :
  runs p r evs -> exists q, script_lines p = log_lines evs ++ q.
Proof.
  induction 1 as [| s p r evs H IH | m msg z p r evs Hz H IH | m msg z p Hz
                  | rs p r evs Hrs H IH].
  - exists []. reflexivity.
  - destruct IH as (q & E). exists q. simpl. congruence.
  - exact IH.
  - exists (script_lines p). reflexivity.
  - destruct IH as (q & E). exists q. autorewrite with logs. exact E.
Qed.

Lemma runs_no_patches p r evs : runs p r evs -> patches evs = [].
Proof.
  induction 1 as [| s p r evs H IH | m msg z p r evs Hz H IH | m msg z p Hz
                  | rs p r evs Hrs H IH]; try (simpl; auto; fail).
  rewrite patches_app, patches_wait_events. exact IH.
Qed.

Lemma runs_no_probes p r evs :
  runs p r evs -> script_waits p = O -> probes evs = [].
Proof. induction 1; simpl; auto; discriminate. Qed.

(** Each wait of a script that is reached polls at most 50 times. *)
Lemma runs_probes_bound p r evs :
  runs p r evs -> (List.length (probes evs) <= 50 * script_waits p)%nat.
Proof.
  induction 1 as [| s p r evs H IH | m msg z p r evs Hz H IH | m msg z p Hz
                  | rs p r evs Hrs H IH]; try (simpl; lia).
  rewrite probes_app, probes_wait_events, length_app.
  apply poll_results_length in Hrs.
  change (script_waits (IWait :: p)) with (S (script_waits p)). lia.
Qed.

Lemma split_after_prefix (a b pre post : list Event) (x : Event) :
  ~ In x a -> a ++ b = pre ++ x :: post ->
  exists pre', pre = a ++ pre' /\ b = pre' ++ x :: post.
Proof.
  revert pre. induction a as [| e a IH]; intros pre Hnin E; simpl in *.
  - exists pre. auto.
  - destruct pre as [| e' pre]; simpl in E; inversion E; subst.
    + exfalso. apply Hnin. auto.
    + destruct (IH pre) as (pre' & -> & Hb); auto.
      exists pre'. auto.
Qed.

Lemma wait_events_no_load (rs : list Z) (m : Irx) (z : Z) :
  ~ In (EvExecModule m z) (wait_events rs).
Proof.
  intros H. apply In_loads in H. rewrite loads_wait_events in H. exact H.
Qed.

(** A negative status is fatal: the failed assertion is all that follows. *)
(** A load at the head of a script, after at most one log line, is always
    issued. *)
Lemma runs_first_load (verbose : bool) (s : string) (m : Irx) (msg : string)
    (q : list Item) r evs :
  runs (log_item verbose s ++ ILoad m msg :: q) r evs ->
  In m (loaded_modules evs).
Proof.
  intros H. destruct verbose; simpl in H.
  - inversion H as [| s' p' r' evs' H' | | |]; subst.
    inversion H'; subst; unfold loaded_modules; simpl; auto.
  - inversion H; subst; unfold loaded_modules; simpl; auto.
Qed.

Lemma runs_fatal p r evs :
  runs p r evs ->
  forall pre m z post,
    evs = pre ++ EvExecModule m z :: post -> z < 0 ->
    exists msg, r = Halt msg /\ post = [EvAssertFail msg].
Proof.
  induction 1 as [| s p r evs H IH | m0 msg0 z0 p r evs Hz0 H IH
                  | m0 msg0 z0 p Hz0 | rs p r evs Hrs H IH];
    intros pre m z post E Hz.
  - destruct pre; discriminate.
  - destruct pre as [| e pre]; simpl in E; inversion E; subst. eauto.
  - destruct pre as [| e pre]; simpl in E; inversion E; subst; [lia | eauto].
  - destruct pre as [| e pre]; simpl in E; inversion E; subst; eauto.
    destruct pre as [| e' pre]; simpl in *; [discriminate |].
    inversion H1. destruct pre; discriminate.
  - apply split_after_prefix in E; [| apply wait_events_no_load].
    destruct E as (pre' & _ & E). eauto.
Qed.

End RunFacts.

(** ** loadAll follows its script and marks completion *)

Section LoadAllFacts.

Variable cfg : BuildConfig.
Variable env : Environment.

Lemma completes_last (c : M unit) (p : list Item) :
  emits c (runs p) -> completes (c ;; set_isLoaded true) p.
Proof.
  intros Hc w. destruct (Hc w) as (evs & Hl & Hf & Hr).
  unfold world_after, result_of, bind in *.
  destruct (c w) as [[[] | msg |] w1]; simpl in *; exists evs; auto.
Qed.

Lemma completes_seq (c k : M unit) (p q : list Item) :
  emits c (runs p) -> completes k q -> completes (c ;; k) (p ++ q).
Proof.
  intros Hc Hk w. destruct (Hc w) as (e1 & Hl1 & Hf1 & Hr1).
  unfold world_after, result_of, bind in *.
  destruct (c w) as [[[] | msg |] w1]; simpl in *.
  - destruct (Hk w1) as (e2 & Hl2 & Hr2 & Hf2).
    unfold world_after, result_of in *.
    exists (e1 ++ e2). rewrite Hl2, Hl1, Hf2, Hf1, app_assoc.
    split; [reflexivity | split; [| reflexivity]].
    apply runs_app_ok; assumption.
  - exists e1. split; [assumption | split; [| assumption]].
    apply runs_app_halt; assumption.
  - apply runs_no_spin in Hr1. contradiction.
Qed.

(** The guard of [loadAll], read off the flag of the world. *)
Lemma loadAll_guard (withUsb withHdd isLoggingToFile : bool) (w : World) :
  loadAll cfg env withUsb withHdd isLoggingToFile w =
  if isLoaded w then TYRA_LOG "IRX modules already loaded!" w
  else (loadIO env (negb isLoggingToFile) ;;
        loadSio2man env (negb isLoggingToFile) ;;
        loadPadman env (negb isLoggingToFile) ;;
        loadLibsd env (negb isLoggingToFile) ;;
        when withUsb (loadUsbModules cfg env (negb isLoggingToFile)) ;;
        when withHdd (loadHddModules cfg env (negb isLoggingToFile)) ;;
        loadAudsrv env true ;;
        set_isLoaded true) w.
Proof.
  unfold loadAll. unfold bind at 1. unfold get_isLoaded.
  destruct (isLoaded w); reflexivity.
Qed.

Lemma loadAll_follows (withUsb withHdd isLoggingToFile : bool) (w : World) :
  let c := loadAll cfg env withUsb withHdd isLoggingToFile in
  log (world_after c w) = log w ++ emitted c w /\
  runs (script_of_call cfg (isLoaded w) withUsb withHdd isLoggingToFile)
       (result_of c w) (emitted c w) /\
  isLoaded (world_after c w) =
    match result_of c w with Ok _ => true | _ => isLoaded w end.
Proof.
  intros c.
  assert (H : exists evs,
             log (world_after c w) = log w ++ evs /\
             runs (script_of_call cfg (isLoaded w) withUsb withHdd
                     isLoggingToFile)
                  (result_of c w) evs /\
             isLoaded (world_after c w) =
               match result_of c w with Ok _ => true | _ => isLoaded w end).
  { unfold c, script_of_call, world_after, result_of.
    rewrite loadAll_guard.
    destruct (isLoaded w) eqn:Hflag.
    - exists [EvLog "IRX modules already loaded!"]. cbn.
      rewrite Hflag. auto.
    - assert (Hall : completes
        (loadIO env (negb isLoggingToFile) ;;
         loadSio2man env (negb isLoggingToFile) ;;
         loadPadman env (negb isLoggingToFile) ;;
         loadLibsd env (negb isLoggingToFile) ;;
         when withUsb (loadUsbModules cfg env (negb isLoggingToFile)) ;;
         when withHdd (loadHddModules cfg env (negb isLoggingToFile)) ;;
         loadAudsrv env true ;;
         set_isLoaded true)
        (script_loadAll cfg withUsb withHdd isLoggingToFile)).
      { unfold script_loadAll.
        apply completes_seq; [apply loadIO_follows |].
        apply completes_seq; [apply loadSio2man_follows |].
        apply completes_seq; [apply loadPadman_follows |].
        apply completes_seq; [apply loadLibsd_follows |].
        apply completes_seq;
          [apply emits_when; apply loadUsbModules_follows |].
        apply completes_seq;
          [apply emits_when; apply loadHddModules_follows |].
        apply completes_last. apply loadAudsrv_follows. }
      destruct (Hall w) as (evs & Hl & Hr & Hf).
      unfold world_after, result_of in *. rewrite Hflag in Hf. eauto. }
  destruct H as (evs & Hl & Hr & Hf).
  rewrite (emitted_eq c w evs Hl). auto.
Qed.

(** The modules of the script are the sequence the design names. *)
Lemma script_loadAll_modules (withUsb withHdd isLoggingToFile : bool) :
  script_modules (script_loadAll cfg withUsb withHdd isLoggingToFile) =
  bringup_sequence cfg withUsb withHdd.
Proof.
  unfold script_loadAll, bringup_sequence, usb_batch, hdd_batch,
    script_loadUsbModules, script_loadHddModules.
  destruct withUsb, withHdd, isLoggingToFile, (USE_USBDMINI cfg), (ATAD cfg);
    reflexivity.
Qed.

Lemma bringup_sequence_NoDup (withUsb withHdd : bool) :
  NoDup (bringup_sequence cfg withUsb withHdd).
Proof.
  unfold bringup_sequence, usb_batch, hdd_batch.
  destruct withUsb, withHdd, (USE_USBDMINI cfg), (ATAD cfg); simpl;
    repeat constructor; simpl; intuition discriminate.
Qed.

(** Lines written when the first call is told that logging goes to a file. *)
Lemma script_loadAll_quiet_lines (withUsb withHdd : bool) :
  script_lines (script_loadAll cfg withUsb withHdd true) =
  ["IRX: Loading audsrv..."; "IRX: Audsrv loaded!"].
Proof.
  unfold script_loadAll, script_loadUsbModules, script_loadHddModules.
  destruct withUsb, withHdd, (USE_USBDMINI cfg), (ATAD cfg); reflexivity.
Qed.

Lemma script_loadAll_waits (withUsb withHdd isLoggingToFile : bool) :
  script_waits (script_loadAll cfg withUsb withHdd isLoggingToFile) =
  if withUsb then 1%nat else 0%nat.
Proof.
  unfold script_loadAll, script_loadUsbModules, script_loadHddModules.
  destruct withUsb, withHdd, isLoggingToFile, (USE_USBDMINI cfg), (ATAD cfg);
    reflexivity.
Qed.

End LoadAllFacts.

(** ** The patch applier and the constructor *)

Section CtorFacts.

Variable cfg : BuildConfig.
Variable env : Environment.

Lemma applyRpcPatches_runs : emits (applyRpcPatches env) patch_run.
Proof.
  intros w. unfold applyRpcPatches, world_after, result_of, bind, sbv_patch,
    TYRA_ASSERT, ret. simpl.
  set (r1 := env_sbv_patch env (log w) sbv_patch_enable_lmb).
  destruct (Z.leb_spec 0 r1) as [H1 | H1]; simpl.
  - set (r2 := env_sbv_patch env _ sbv_patch_disable_prefix_check).
    destruct (Z.leb_spec 0 r2) as [H2 | H2]; simpl.
    + set (r3 := env_sbv_patch env _ sbv_patch_fileio).
      destruct (Z.leb_spec 0 r3) as [H3 | H3]; simpl.
      * eexists. rewrite <- !app_assoc. simpl.
        split; [reflexivity | split; [reflexivity |]].
        apply patch_all; assumption.
      * eexists. rewrite <- !app_assoc. simpl.
        split; [reflexivity | split; [reflexivity |]].
        apply patch_fail_fileio; assumption.
    + eexists. rewrite <- !app_assoc. simpl.
      split; [reflexivity | split; [reflexivity |]].
      apply patch_fail_prefix_check; assumption.
  - eexists. rewrite <- !app_assoc. simpl.
    split; [reflexivity | split; [reflexivity |]].
    apply patch_fail_lmb; assumption.
Qed.

Lemma spin_until_runs (poll : M bool) (failed succeeded : Event) :
  emits poll (fun r evs =>
                exists ok, r = Ok ok /\
                           evs = [if ok then succeeded else failed]) ->
  forall fuel,
    emits (spin_until fuel poll) (spin_run failed succeeded fuel).
Proof.
  intros Hpoll fuel. induction fuel as [| fuel IH]; simpl.
  - intros w. exists []. cbn. rewrite app_nil_r.
    split; [reflexivity | split; [reflexivity |]]. apply spin_out.
  - eapply emits_bind with
      (Q := fun (ok : bool) r evs =>
              if ok then r = Ok tt /\ evs = []
              else spin_run failed succeeded fuel r evs).
    + exact Hpoll.
    + intros [|]; [apply emits_ret; auto | exact IH].
    + intros ok e1 r e2 (ok' & Hok & He) HQ.
      inversion Hok; subst ok' e1. destruct ok.
      * destruct HQ as [Hr He2]. subst r e2.
        apply (spin_done failed succeeded (S fuel) 0). lia.
      * inversion HQ as [n Hn E1 E2 | E1 E2].
        -- apply (spin_done failed succeeded (S fuel) (S n)). lia.
        -- apply (spin_out failed succeeded (S fuel)).
    + intros msg e (ok & Hok & _). discriminate.
    + intros e (ok & Hok & _). discriminate.
Qed.

Lemma SifIopReset_spins (arg : option string) (fuel : nat) :
  emits (spin_until fuel (SifIopReset env arg))
        (spin_run (EvSifIopReset arg false) (EvSifIopReset arg true) fuel).
Proof.
  apply spin_until_runs. intros w.
  unfold world_after, result_of, SifIopReset. simpl.
  set (ok := env_SifIopReset env (log w) arg).
  exists [EvSifIopReset arg ok].
  split; [reflexivity | split; [reflexivity |]].
  exists ok. destruct ok; split; reflexivity.
Qed.

Lemma SifIopSync_spins (fuel : nat) :
  emits (spin_until fuel (SifIopSync env))
        (spin_run (EvSifIopSync false) (EvSifIopSync true) fuel).
Proof.
  apply spin_until_runs. intros w.
  unfold world_after, result_of, SifIopSync. simpl.
  set (ok := env_SifIopSync env (log w)).
  exists [EvSifIopSync ok].
  split; [reflexivity | split; [reflexivity |]].
  exists ok. destruct ok; split; reflexivity.
Qed.

Lemma reset_block_runs (arg : option string) (fuel : nat) :
  emits (SifInitRpc ;;
         spin_until fuel (SifIopReset env arg) ;;
         spin_until fuel (SifIopSync env) ;;
         SifInitRpc)
        (reset_run arg fuel).
Proof.
  assert (Hsync :
    emits (spin_until fuel (SifIopSync env) ;; SifInitRpc)
          (fun r evs =>
             (exists m, (m < fuel)%nat /\ r = Ok tt /\
                evs = repeat (EvSifIopSync false) m ++
                      [EvSifIopSync true; EvSifInitRpc]) \/
             (r = Spin /\ evs = repeat (EvSifIopSync false) fuel))).
  { eapply emits_bind;
      [apply SifIopSync_spins | intros ?; apply emits_emit | | |].
    - intros a e1 r e2 H1 [Hr He]. subst r e2.
      inversion H1 as [m Hm E1 E2 | E1 E2]. left. exists m.
      rewrite <- app_assoc. auto.
    - intros msg e H. inversion H.
    - intros e H. inversion H. auto. }
  assert (Hreset :
    emits (spin_until fuel (SifIopReset env arg) ;;
           spin_until fuel (SifIopSync env) ;; SifInitRpc)
          (fun r evs => reset_run arg fuel r (EvSifInitRpc :: evs))).
  { eapply emits_bind; [apply SifIopReset_spins | intros ?; exact Hsync | | |].
    - intros a e1 r e2 H1 [(m & Hm & Hr & He) | [Hr He]]; subst r e2;
        inversion H1 as [n Hn E1 E2 | E1 E2]; rewrite <- app_assoc.
      + apply (reset_done arg fuel n m Hn Hm).
      + apply (sync_hangs arg fuel n Hn).
    - intros msg e H. inversion H.
    - intros e H. inversion H. apply reset_hangs. }
  eapply emits_bind; [apply emits_emit | intros ?; exact Hreset | | |].
  - intros a e1 r e2 [_ He] H. subst e1. exact H.
  - intros msg e [H _]. discriminate.
  - intros e [H _]. discriminate.
Qed.

Lemma IrxLoader_runs (fuel : nat) :
  emits (IrxLoader cfg env fuel) (ctor_run cfg fuel).
Proof.
  assert (Hpatch :
    emits (_ <- applyRpcPatches env ;; ret tt)
          (fun r evs => exists rz, patch_run rz evs /\ r = drop_status rz)).
  { eapply emits_bind with (Q := fun _ r evs => r = Ok tt /\ evs = []);
      [apply applyRpcPatches_runs | intros ?; apply emits_ret; auto | | |].
    - intros a e1 r e2 H1 [Hr He]. subst r e2. rewrite app_nil_r.
      exists (Ok a). auto.
    - intros msg e H. exists (Halt msg). auto.
    - intros e H. inversion H. }
  unfold IrxLoader. fold (reset_arg cfg).
  destruct (RESET_IOP cfg) eqn:Hreset; simpl.
  - eapply emits_bind;
      [apply reset_block_runs | intros ?; exact Hpatch | | |].
    + intros a e1 r e2 H1 (rz & Hrz & Hr). subst r.
      inversion H1 as [n m Hn Hm E1 E2 | |]. subst.
      apply ctor_reset; assumption.
    + intros msg e H. inversion H.
    + intros e H. apply ctor_hangs; assumption.
  - eapply emits_bind with (P := fun r evs => r = Ok tt /\ evs = []);
      [apply emits_ret; auto | intros ?; exact Hpatch | | |].
    + intros a e1 r e2 [_ He] (rz & Hrz & Hr). subst. simpl.
      apply ctor_plain; assumption.
    + intros msg e [H _]. discriminate.
    + intros e [H _]. discriminate.
Qed.

Lemma patch_run_no_loads r evs : patch_run r evs -> loads evs = [].
Proof. destruct 1; reflexivity. Qed.

Lemma loads_repeat_not_load (e : Event) (n : nat) :
  loads [e] = [] -> loads (repeat e n) = [].
Proof.
  intros He. induction n as [| n IH]; simpl; auto.
  destruct e; simpl in *; auto; discriminate.
Qed.

Lemma patches_repeat_not_patch (e : Event) (n : nat) :
  patches [e] = [] -> patches (repeat e n) = [].
Proof.
  intros He. induction n as [| n IH]; simpl; auto.
  destruct e; simpl in *; auto; discriminate.
Qed.

Lemma patches_reset_events (arg : option string) (n m : nat) :
  patches (reset_events arg n m) = [].
Proof.
  unfold reset_events. simpl. rewrite patches_app. simpl.
  rewrite patches_app. simpl.
  rewrite !patches_repeat_not_patch by reflexivity. reflexivity.
Qed.

Lemma loads_reset_events (arg : option string) (n m : nat) :
  loads (reset_events arg n m) = [].
Proof.
  unfold reset_events. simpl. rewrite loads_app. simpl.
  rewrite loads_app. simpl.
  rewrite !loads_repeat_not_load by reflexivity. reflexivity.
Qed.

Lemma ctor_run_no_loads (fuel : nat) r evs :
  ctor_run cfg fuel r evs -> loads evs = [].
Proof.
  destruct 1 as [rz evs Hc Hp | n m rz evs Hc Hn Hm Hp | evs Hc Hr].
  - eapply patch_run_no_loads; eauto.
  - rewrite loads_app, loads_reset_events. simpl.
    eapply patch_run_no_loads; eauto.
  - inversion Hr; subst; simpl; rewrite ?loads_app; simpl;
      rewrite ?loads_repeat_not_load by reflexivity; reflexivity.
Qed.

End CtorFacts.

(** ** Processes *)

Section ProcessFacts.

Variable cfg : BuildConfig.
Variable env : Environment.

Lemma loadAll_already_loaded (withUsb withHdd isLoggingToFile : bool)
    (w : World) :
  isLoaded w = true ->
  loadAll cfg env withUsb withHdd isLoggingToFile w =
  (Ok tt, mkWorld true (log w ++ [EvLog "IRX modules already loaded!"])).
Proof.
  intros H. rewrite loadAll_guard, H. unfold TYRA_LOG, emit. rewrite H.
  reflexivity.
Qed.

Lemma loadAll_modules_prefix (withUsb withHdd isLoggingToFile : bool)
    (w : World) :
  isLoaded w = false ->
  exists q,
    bringup_sequence cfg withUsb withHdd =
    loaded_modules (emitted (loadAll cfg env withUsb withHdd isLoggingToFile) w)
    ++ q.
Proof.
  intros Hflag.
  destruct (loadAll_follows cfg env withUsb withHdd isLoggingToFile w)
    as (_ & Hr & _).
  rewrite Hflag in Hr. simpl in Hr.
  apply runs_modules_prefix in Hr. rewrite script_loadAll_modules in Hr.
  exact Hr.
Qed.

(** One call: after completion nothing is loaded; before it, nothing twice. *)
Lemma do_call_loads (c : Call) (w : World) :
  exists evs,
    log (world_after (do_call cfg env c) w) = log w ++ evs /\
    (isLoaded w = true ->
       loads evs = [] /\ isLoaded (world_after (do_call cfg env c) w) = true) /\
    (isLoaded w = false ->
       NoDup (loaded_modules evs) /\
       (isLoaded (world_after (do_call cfg env c) w) = false ->
        forall a, result_of (do_call cfg env c) w = Ok a -> loads evs = [])).
Proof.
  destruct c as [fuel | withUsb withHdd isLoggingToFile]; simpl.
  - destruct (IrxLoader_runs cfg env fuel w) as (evs & Hl & Hf & Hr).
    apply ctor_run_no_loads in Hr. exists evs.
    split; [exact Hl |]. unfold loaded_modules. rewrite Hr, Hf. simpl.
    repeat split; auto. constructor.
  - destruct (loadAll_follows cfg env withUsb withHdd isLoggingToFile w)
      as (Hl & Hr & Hf).
    simpl in *. eexists. split; [exact Hl |]. split; intros Hflag.
    + rewrite Hflag in Hr, Hf. split.
      * apply runs_modules_prefix in Hr. destruct Hr as (q & Hq).
        simpl in Hq. symmetry in Hq. apply app_eq_nil in Hq.
        destruct Hq as [Hq _]. apply map_eq_nil in Hq. exact Hq.
      * rewrite Hf.
        destruct (result_of (loadAll cfg env withUsb withHdd isLoggingToFile) w);
          reflexivity.
    + split.
      * destruct (loadAll_modules_prefix withUsb withHdd isLoggingToFile w Hflag)
          as (q & Hq).
        pose proof (bringup_sequence_NoDup cfg withUsb withHdd) as Hnd.
        rewrite Hq in Hnd. apply NoDup_app_remove_r in Hnd. exact Hnd.
      * intros Hstill a Ha. rewrite Ha in Hf. congruence.
Qed.

Lemma process_loads (cs : list Call) :
  forall w, exists evs,
    log (world_after (process cfg env cs) w) = log w ++ evs /\
    (isLoaded w = true ->
       loads evs = [] /\
       isLoaded (world_after (process cfg env cs) w) = true) /\
    (isLoaded w = false -> NoDup (loaded_modules evs)).
Proof.
  induction cs as [| c cs IH]; intros w; simpl.
  - exists []. unfold world_after, ret. simpl. rewrite app_nil_r.
    repeat split; auto. constructor.
  - destruct (do_call_loads c w) as (e1 & Hl1 & Hon1 & Hoff1).
    unfold world_after, result_of, bind in *.
    destruct (do_call cfg env c w) as [[[] | msg |] w1]; simpl in *;
      try (exists e1; split; [exact Hl1 |]; split; intros Hflag;
           [apply Hon1 | apply Hoff1]; exact Hflag).
    destruct (IH w1) as (e2 & Hl2 & Hon2 & Hoff2).
    exists (e1 ++ e2). rewrite Hl2, Hl1, app_assoc.
    split; [reflexivity |]. split; intros Hflag.
    + destruct (Hon1 Hflag) as [H1 Hf1]. destruct (Hon2 Hf1) as [H2 Hf2].
      rewrite loads_app, H1, H2. auto.
    + destruct (Hoff1 Hflag) as [Hnd Hstill].
      unfold loaded_modules in *. rewrite loads_app.
      destruct (isLoaded w1) eqn:Hf1.
      * destruct (Hon2 eq_refl) as [H2 _]. rewrite H2, app_nil_r. exact Hnd.
      * rewrite (Hstill eq_refl tt eq_refl). simpl. apply Hoff2. reflexivity.
Qed.

End ProcessFacts.

(** ** Orderings inside a batch *)

Section OrderFacts.

Lemma Irx_eqb_eq (a b : Irx) : Irx_eqb a b = true -> a = b.
Proof. unfold Irx_eqb. destruct (Irx_eq_dec a b); [auto | discriminate]. Qed.

Lemma loaded_before_b_sound (a b : Irx) (ms : list Irx) :
  forall seen,
    loaded_before_b a b seen ms = true ->
    forall pre post, ms = pre ++ b :: post -> seen = true \/ In a pre.
Proof.
  induction ms as [| m ms IH]; intros seen Hb pre post E.
  - destruct pre; discriminate.
  - simpl in Hb. apply andb_prop in Hb. destruct Hb as [Hhere Hrest].
    destruct pre as [| x pre]; simpl in E; inversion E; subst.
    + unfold Irx_eqb in Hhere. destruct (Irx_eq_dec b b); [auto | congruence].
    + destruct (IH _ Hrest pre post eq_refl) as [Hseen | Hin].
      * apply orb_prop in Hseen. destruct Hseen as [Hseen | Heq]; [auto |].
        right. left. apply Irx_eqb_eq. exact Heq.
      * right. right. exact Hin.
Qed.

Lemma loaded_before_check (a b : Irx) (ms : list Irx) :
  loaded_before_b a b false ms = true -> loaded_before a b ms.
Proof.
  intros Hb pre post E.
  destruct (loaded_before_b_sound a b ms false Hb pre post E); [discriminate |].
  assumption.
Qed.

Lemma last_of_loader_check (b : Irx) (ms : list Irx) :
  last_of_loader_b b ms = true -> last_of_loader b ms.
Proof.
  induction ms as [| m ms IH]; intros Hb pre post E x Hin.
  - destruct pre; discriminate.
  - simpl in Hb. apply andb_prop in Hb. destruct Hb as [Hhere Hrest].
    destruct pre as [| y pre]; simpl in E; inversion E; subst.
    + unfold Irx_eqb in Hhere. destruct (Irx_eq_dec b b); [| congruence].
      rewrite forallb_forall in Hhere. specialize (Hhere x Hin).
      destruct (Loader_eq_dec (loader_of x) (loader_of b));
        [discriminate | assumption].
    + apply (IH Hrest pre post eq_refl x Hin).
Qed.

Lemma loaded_before_prefix (a b : Irx) (ms q : list Irx) :
  loaded_before a b (ms ++ q) -> loaded_before a b ms.
Proof.
  intros H pre post E. apply (H pre (post ++ q)).
  rewrite E, <- app_assoc. reflexivity.
Qed.

Lemma last_of_loader_prefix (b : Irx) (ms q : list Irx) :
  last_of_loader b (ms ++ q) -> last_of_loader b ms.
Proof.
  intros H pre post E x Hin. apply (H pre (post ++ q)).
  - rewrite E, <- app_assoc. reflexivity.
  - apply in_or_app. left. exact Hin.
Qed.

Lemma batch_order_prefix (cfg : BuildConfig) (ms q : list Irx) :
  batch_order cfg (ms ++ q) -> batch_order cfg ms.
Proof.
  intros (H1 & H2 & H3 & H4 & H5).
  repeat split;
    [eapply loaded_before_prefix | eapply loaded_before_prefix
     | eapply loaded_before_prefix | eapply last_of_loader_prefix
     | eapply loaded_before_prefix]; eassumption.
Qed.

Local Ltac check_order :=
  repeat split;
  (apply loaded_before_check || apply last_of_loader_check); reflexivity.

Lemma batch_order_bringup (cfg : BuildConfig) (withUsb withHdd : bool) :
  batch_order cfg (bringup_sequence cfg withUsb withHdd).
Proof.
  unfold batch_order, bringup_sequence, usb_batch, hdd_batch, usb_driver,
    usb_mass_storage_bridge.
  destruct withUsb, withHdd, (USE_USBDMINI cfg), (ATAD cfg); check_order.
Qed.

Lemma batch_order_usb (cfg : BuildConfig) : batch_order cfg (usb_batch cfg).
Proof.
  unfold batch_order, usb_batch, usb_driver, usb_mass_storage_bridge.
  destruct (USE_USBDMINI cfg); check_order.
Qed.

Lemma batch_order_hdd (cfg : BuildConfig) : batch_order cfg (hdd_batch cfg).
Proof.
  unfold batch_order, hdd_batch, usb_driver, usb_mass_storage_bridge.
  destruct (USE_USBDMINI cfg), (ATAD cfg); check_order.
Qed.

Lemma batch_order_nil (cfg : BuildConfig) : batch_order cfg [].
Proof.
  repeat split; intros pre post E; destruct pre; discriminate.
Qed.

End OrderFacts.

(** ** The patch applier *)

Section PatchFacts.

Local Ltac peel E :=
  match type of E with
  | [] = _ ++ _ :: _ => destruct (app_cons_not_nil _ _ _ E)
  | _ :: _ = ?pre ++ _ :: _ =>
      destruct pre as [| ? pre]; simpl in E;
      [ inversion E; subst; try lia; eauto
      | let E' := fresh "E" in injection E as _ E'; peel E' ]
  end.

Lemma patch_run_fatal r evs :
  patch_run r evs ->
  forall pre p z post,
    evs = pre ++ EvSbvPatch p z :: post -> z < 0 ->
    exists msg, r = Halt msg /\ post = [EvAssertFail msg].
Proof.
  destruct 1; intros pre p z post E Hz; peel E.
Qed.

Lemma patch_run_order r evs :
  patch_run r evs ->
  exists q,
    [sbv_patch_enable_lmb; sbv_patch_disable_prefix_check; sbv_patch_fileio]
    = map fst (patches evs) ++ q.
Proof. destruct 1; simpl; eexists; reflexivity. Qed.

Lemma patch_run_all_ok r evs :
  patch_run r evs ->
  Forall (fun x => 0 <= snd x) (patches evs) -> exists z, r = Ok z.
Proof.
  destruct 1; simpl; intros Hall; eauto;
    repeat match goal with
           | H : Forall _ (_ :: _) |- _ => inversion H; subst; clear H
           end; simpl in *; lia.
Qed.

End PatchFacts.

(** ** Logging does not steer the program

    On a platform that does not look at the log lines, runs from alike worlds
    that differ only in what they log stay alike and end the same way. *)

Section LoggingFacts.

Variable cfg : BuildConfig.
Variable env : Environment.
Hypothesis env_blind : env_ignores_logging env.

Lemma sim_ret {A : Type} (a : A) : sim (ret a) (ret a).
Proof. intros w1 w2 H. split; [reflexivity | exact H]. Qed.

Lemma sim_bind {A B : Type} (c1 c2 : M A) (k1 k2 : A -> M B) :
  sim c1 c2 -> (forall a, sim (k1 a) (k2 a)) -> sim (bind c1 k1) (bind c2 k2).
Proof.
  intros Hc Hk w1 w2 Hw. destruct (Hc w1 w2 Hw) as [Hr Ha].
  unfold result_of, world_after, bind in *.
  destruct (c1 w1) as [r1 v1], (c2 w2) as [r2 v2]. simpl in *. subst r2.
  destruct r1 as [a | msg |]; [apply Hk; exact Ha | auto | auto].
Qed.

Lemma sim_log (v1 v2 : bool) (s1 s2 : string) :
  sim (when v1 (TYRA_LOG s1)) (when v2 (TYRA_LOG s2)).
Proof.
  intros w1 w2 [Hf Hl].
  destruct v1, v2; unfold alike; cbn; rewrite ?without_logging_app; simpl;
    rewrite ?app_nil_r; auto.
Qed.

Lemma sim_emit (e : Event) : sim (emit e) (emit e).
Proof.
  intros w1 w2 [Hf Hl]. unfold alike. cbn.
  rewrite !without_logging_app, Hl. auto.
Qed.

Lemma sim_assert (cond : bool) (msg : string) :
  sim (TYRA_ASSERT cond msg) (TYRA_ASSERT cond msg).
Proof.
  intros w1 w2 [Hf Hl]. destruct cond; unfold alike; cbn; auto.
  rewrite !without_logging_app, Hl. auto.
Qed.

Lemma sim_exec (m : Irx) :
  sim (SifExecModuleBuffer env m) (SifExecModuleBuffer env m).
Proof.
  intros w1 w2 [Hf Hl].
  destruct (env_blind _ _ Hl) as (_ & _ & _ & He & _).
  unfold alike. cbn. rewrite !without_logging_app, Hl, (He m). auto.
Qed.

Lemma sim_stat (path : string) : sim (stat env path) (stat env path).
Proof.
  intros w1 w2 [Hf Hl].
  destruct (env_blind _ _ Hl) as (_ & _ & _ & _ & Hs).
  unfold alike. cbn. rewrite !without_logging_app, Hl, (Hs path). auto.
Qed.

Lemma sim_set_isLoaded (b : bool) : sim (set_isLoaded b) (set_isLoaded b).
Proof. intros w1 w2 [Hf Hl]. unfold alike. cbn. auto. Qed.

Lemma sim_get_isLoaded : sim get_isLoaded get_isLoaded.
Proof.
  intros w1 w2 [Hf Hl]. unfold alike. cbn. rewrite Hf. auto.
Qed.

Lemma sim_when (b : bool) (c1 c2 : M unit) :
  sim c1 c2 -> sim (when b c1) (when b c2).
Proof. destruct b; simpl; [auto | intros _; apply sim_ret]. Qed.

Lemma sim_delay_rounds (n : nat) : sim (delay_rounds n) (delay_rounds n).
Proof.
  induction n as [| n IH]; simpl; [apply sim_ret |].
  apply sim_bind; [apply sim_emit | intros _; exact IH].
Qed.

Lemma sim_wait_loop (retries : nat) :
  forall r, sim (wait_loop env r retries) (wait_loop env r retries).
Proof.
  induction retries as [| n IH]; intros r; simpl; [apply sim_ret |].
  destruct (r =? 0); [apply sim_ret |].
  apply sim_bind; [apply sim_stat | intros r'].
  apply sim_bind; [apply sim_emit | intros _; apply IH].
Qed.

Lemma sim_wait :
  sim (waitUntilUsbDeviceIsReady env) (waitUntilUsbDeviceIsReady env).
Proof.
  unfold waitUntilUsbDeviceIsReady, delay.
  apply sim_bind; [apply sim_delay_rounds | intros _; apply sim_wait_loop].
Qed.

Local Ltac simulate :=
  repeat first
    [ apply sim_log
    | apply sim_exec
    | apply sim_assert
    | apply sim_wait
    | apply sim_set_isLoaded
    | apply sim_ret
    | apply sim_bind; [| intros ?] ].

Lemma sim_loadLibsd (v1 v2 : bool) : sim (loadLibsd env v1) (loadLibsd env v2).
Proof. unfold loadLibsd. simulate. Qed.

Lemma sim_loadIO (v1 v2 : bool) : sim (loadIO env v1) (loadIO env v2).
Proof. unfold loadIO. simulate. Qed.

Lemma sim_loadSio2man (v1 v2 : bool) :
  sim (loadSio2man env v1) (loadSio2man env v2).
Proof. unfold loadSio2man. simulate. Qed.

Lemma sim_loadPadman (v1 v2 : bool) :
  sim (loadPadman env v1) (loadPadman env v2).
Proof. unfold loadPadman. simulate. Qed.

Lemma sim_loadAudsrv (v1 v2 : bool) :
  sim (loadAudsrv env v1) (loadAudsrv env v2).
Proof. unfold loadAudsrv. simulate. Qed.

Lemma sim_loadUsbModules (v1 v2 : bool) :
  sim (loadUsbModules cfg env v1) (loadUsbModules cfg env v2).
Proof.
  unfold loadUsbModules.
  apply sim_bind; [apply sim_log | intros _].
  apply sim_bind; [destruct (USE_USBDMINI cfg); simulate | intros _].
  simulate.
Qed.

Lemma sim_loadHddModules (v1 v2 : bool) :
  sim (loadHddModules cfg env v1) (loadHddModules cfg env v2).
Proof.
  unfold loadHddModules.
  apply sim_bind; [apply sim_log | intros _].
  do 3 (apply sim_bind; [apply sim_exec | intros ?];
        apply sim_bind; [apply sim_assert | intros _]).
  apply sim_bind; [apply sim_when; simulate | intros _].
  apply sim_log.
Qed.

Lemma sim_loadAll (withUsb withHdd l1 l2 : bool) :
  sim (loadAll cfg env withUsb withHdd l1) (loadAll cfg env withUsb withHdd l2).
Proof.
  unfold loadAll.
  apply sim_bind; [apply sim_get_isLoaded | intros loaded].
  destruct loaded; [apply (sim_log true true) |].
  apply sim_bind; [apply sim_loadIO | intros _].
  apply sim_bind; [apply sim_loadSio2man | intros _].
  apply sim_bind; [apply sim_loadPadman | intros _].
  apply sim_bind; [apply sim_loadLibsd | intros _].
  apply sim_bind; [apply sim_when; apply sim_loadUsbModules | intros _].
  apply sim_bind; [apply sim_when; apply sim_loadHddModules | intros _].
  apply sim_bind; [apply sim_loadAudsrv | intros _].
  apply sim_set_isLoaded.
Qed.

End LoggingFacts.

Lemma env_ok_ignores_logging : env_ignores_logging env_ok.
Proof. intros h1 h2 _. repeat split. Qed.

(** ** The constructor does not hang on a platform that acknowledges *)

Section CtorTotal.

Variable cfg : BuildConfig.
Variable env : Environment.

Lemma bind_spin {A B : Type} (c : M A) (k : A -> M B) (w : World) :
  result_of (bind c k) w = Spin ->
  result_of c w = Spin \/
  exists a, result_of c w = Ok a /\ result_of (k a) (world_after c w) = Spin.
Proof.
  unfold result_of, world_after, bind.
  destruct (c w) as [[a | msg |] w1]; simpl; intros H; eauto; discriminate.
Qed.

Lemma spin_until_total (f : list Event -> bool) (ev : bool -> Event)
    (poll : M bool) :
  (forall w, poll w =
             (Ok (f (log w)),
              mkWorld (isLoaded w) (log w ++ [ev (f (log w))]))) ->
  forall fuel w,
    (exists n, (n < fuel)%nat /\ f (log w ++ repeat (ev false) n) = true) ->
    result_of (spin_until fuel poll) w = Ok tt.
Proof.
  intros Hpoll fuel. induction fuel as [| fuel IH]; intros w (n & Hn & Hack).
  - lia.
  - simpl. unfold result_of, bind. rewrite Hpoll.
    destruct (f (log w)) eqn:Hnow; [reflexivity |].
    apply IH. simpl. destruct n as [| n].
    + simpl in Hack. rewrite app_nil_r in Hack. congruence.
    + exists n. split; [lia |]. rewrite <- app_assoc. exact Hack.
Qed.

Lemma IrxLoader_returns_or_halts (fuel : nat) (w : World) :
  (RESET_IOP cfg = true -> acks_within fuel env (reset_arg cfg)) ->
  result_of (IrxLoader cfg env fuel) w <> Spin.
Proof.
  intros Hacks Hspin. unfold IrxLoader in Hspin. fold (reset_arg cfg) in Hspin.
  assert (Hpatch : forall v,
            result_of (_ <- applyRpcPatches env ;; ret tt) v <> Spin).
  { intros v Hv. apply bind_spin in Hv. destruct Hv as [Hv | (a & _ & Hv)].
    - destruct (applyRpcPatches_runs env v) as (evs & _ & _ & Hr).
      rewrite Hv in Hr. inversion Hr.
    - discriminate. }
  apply bind_spin in Hspin. destruct Hspin as [Hspin | (a & _ & Hspin)];
    [| apply Hpatch in Hspin; exact Hspin].
  destruct (RESET_IOP cfg); [| discriminate].
  destruct (Hacks eq_refl) as [Hreset Hsync]. simpl in Hspin.
  apply bind_spin in Hspin.
  destruct Hspin as [Hspin | (a & _ & Hspin)]; [discriminate |].
  apply bind_spin in Hspin. destruct Hspin as [Hspin | (b & _ & Hspin)].
  - rewrite (spin_until_total
               (fun h => env_SifIopReset env h (reset_arg cfg))
               (EvSifIopReset (reset_arg cfg))) in Hspin;
      [discriminate | reflexivity | apply Hreset].
  - apply bind_spin in Hspin. destruct Hspin as [Hspin | (d & _ & Hspin)];
      [| discriminate].
    rewrite (spin_until_total (env_SifIopSync env) EvSifIopSync) in Hspin;
      [discriminate | reflexivity | apply Hsync].
Qed.

End CtorTotal.

Lemma acks_at_once (arg : option string) : acks_within 1 env_ok arg.
Proof. split; intros h; exists O; split; auto. Qed.

(** * The claims *)

(** C1.  Idempotency of the top-level entry.  When a call of [loadAll]
    completes, the flag [isLoaded] is set; from then on, after any further
    constructions and calls, every call of [loadAll], whatever its arguments,
    returns at once: all it does is write the line
    "IRX modules already loaded!".  No sequence of further constructions and
    calls loads any module or clears the flag.  In a whole process, from its
    start, no module is ever loaded twice. *)
Theorem C1_loadAll_idempotent (cfg : BuildConfig) (env : Environment)
    (withUsb withHdd isLoggingToFile : bool) (w : World) (a : unit) :
  result_of (loadAll cfg env withUsb withHdd isLoggingToFile) w = Ok a ->
  let w1 := world_after (loadAll cfg env withUsb withHdd isLoggingToFile) w in
  isLoaded w1 = true /\
  (forall (cs : list Call) withUsb' withHdd' isLoggingToFile',
     let w2 := world_after (process cfg env cs) w1 in
     loadAll cfg env withUsb' withHdd' isLoggingToFile' w2 =
     (Ok tt, mkWorld true (log w2 ++ [EvLog "IRX modules already loaded!"]))) /\
  (forall cs : list Call,
     loads (emitted (process cfg env cs) w1) = [] /\
     isLoaded (world_after (process cfg env cs) w1) = true) /\
  (forall (cs : list Call) (m : Irx),
     (count_occ Irx_eq_dec
        (loaded_modules (log (world_after (process cfg env cs) initial_world)))
        m <= 1)%nat).
Proof.
  intros Hok w1.
  assert (Hflag : isLoaded w1 = true).
  { destruct (loadAll_follows cfg env withUsb withHdd isLoggingToFile w)
      as (_ & _ & Hf).
    unfold w1. rewrite Hf, Hok. reflexivity. }
  split; [exact Hflag |]. split; [| split].
  - intros cs u h l w2. apply loadAll_already_loaded.
    destruct (process_loads cfg env cs w1) as (evs & _ & Hon & _).
    apply Hon. exact Hflag.
  - intros cs. destruct (process_loads cfg env cs w1) as (evs & Hl & Hon & _).
    rewrite (emitted_eq _ _ _ Hl). apply Hon. exact Hflag.
  - intros cs m.
    destruct (process_loads cfg env cs initial_world) as (evs & Hl & _ & Hoff).
    simpl in Hl. rewrite Hl.
    apply NoDup_count_occ. apply Hoff. reflexivity.
Qed.

Lemma C1_loadAll_idempotent_witness :
  result_of (loadAll cfg_default env_ok true false true) initial_world = Ok tt /\
  loads (emitted
           (process cfg_default env_ok
              [CallLoadAll true true false; CallNew 1;
               CallLoadAll false true true])
           (world_after (loadAll cfg_default env_ok true false true)
                        initial_world)) = [].
Proof.
  split; [vm_compute; reflexivity |].
  apply (C1_loadAll_idempotent cfg_default env_ok true false true
           initial_world tt).
  vm_compute. reflexivity.
Defined.

(** C2.  Fatal propagation of a module-load failure.  Whenever a call of
    [loadAll] issues the load of a module and the status is negative, the
    call halts at the assertion: the failed assertion is the only event after
    that load, so no later module is loaded, and [isLoaded] is left as it
    was. *)
Theorem C2_load_failure_is_fatal (cfg : BuildConfig) (env : Environment)
    (withUsb withHdd isLoggingToFile : bool) (w : World)
    (pre post : list Event) (m : Irx) (z : Z) :
  emitted (loadAll cfg env withUsb withHdd isLoggingToFile) w =
    pre ++ EvExecModule m z :: post ->
  z < 0 ->
  exists msg,
    result_of (loadAll cfg env withUsb withHdd isLoggingToFile) w = Halt msg /\
    post = [EvAssertFail msg] /\
    loads post = [] /\
    isLoaded (world_after (loadAll cfg env withUsb withHdd isLoggingToFile) w)
      = isLoaded w.
Proof.
  intros Hsplit Hz.
  destruct (loadAll_follows cfg env withUsb withHdd isLoggingToFile w)
    as (_ & Hr & Hf).
  simpl in *.
  destruct (runs_fatal _ _ _ Hr pre m z post Hsplit Hz) as (msg & Hhalt & Hpost).
  exists msg. rewrite Hf, Hhalt, Hpost. auto.
Qed.

Lemma C2_load_failure_is_fatal_witness :
  emitted (loadAll cfg_default env_padman_fails true true false) initial_world =
    [EvLog "IRX: Loading iomanX..."; EvExecModule iomanX_irx 0;
     EvLog "IRX: iomanX loaded!"; EvLog "IRX: Loading fileXio...";
     EvExecModule fileXio_irx 0; EvLog "IRX: fileXio_irx loaded!";
     EvLog "IRX: Loading sio2man..."; EvExecModule sio2man_irx 0;
     EvLog "IRX: Sio2man loaded!"; EvLog "IRX: Loading padman..."] ++
    EvExecModule padman_irx (-1) ::
    [EvAssertFail "Failed to load module: padman_irx"] /\
  -1 < 0 /\
  exists msg,
    result_of (loadAll cfg_default env_padman_fails true true false)
              initial_world = Halt msg /\
    [EvAssertFail "Failed to load module: padman_irx"] = [EvAssertFail msg] /\
    loads [EvAssertFail "Failed to load module: padman_irx"] = [] /\
    isLoaded (world_after (loadAll cfg_default env_padman_fails true true false)
                          initial_world) = isLoaded initial_world.
Proof.
  split; [vm_compute; reflexivity |]. split; [lia |].
  apply (C2_load_failure_is_fatal cfg_default env_padman_fails true true false
           initial_world
           [EvLog "IRX: Loading iomanX..."; EvExecModule iomanX_irx 0;
            EvLog "IRX: iomanX loaded!"; EvLog "IRX: Loading fileXio...";
            EvExecModule fileXio_irx 0; EvLog "IRX: fileXio_irx loaded!";
            EvLog "IRX: Loading sio2man..."; EvExecModule sio2man_irx 0;
            EvLog "IRX: Sio2man loaded!"; EvLog "IRX: Loading padman..."]
           [EvAssertFail "Failed to load module: padman_irx"]
           padman_irx (-1)).
  - vm_compute. reflexivity.
  - lia.
Defined.

(** C3.  Patching comes before loading.  In every bring-up run (construct the
    loader, then call [loadAll]) that returns, the three capability toggles
    are all applied, each with a status that is not negative, before the
    first module load: nothing is loaded before them and no toggle follows. *)
Theorem C3_patches_before_loads (cfg : BuildConfig) (env : Environment)
    (fuel : nat) (withUsb withHdd isLoggingToFile : bool) (w : World)
    (a : unit) :
  result_of (bringUp cfg env fuel withUsb withHdd isLoggingToFile) w = Ok a ->
  exists pre r1 r2 r3 post,
    emitted (bringUp cfg env fuel withUsb withHdd isLoggingToFile) w =
      pre ++
      [EvSbvPatch sbv_patch_enable_lmb r1;
       EvSbvPatch sbv_patch_disable_prefix_check r2;
       EvSbvPatch sbv_patch_fileio r3] ++ post /\
    0 <= r1 /\ 0 <= r2 /\ 0 <= r3 /\
    loads pre = [] /\ patches pre = [] /\ patches post = [].
Proof.
  intros Hok.
  destruct (IrxLoader_runs cfg env fuel w) as (e1 & Hl1 & Hf1 & Hr1).
  unfold bringUp, emitted, result_of, world_after, bind in *.
  destruct (IrxLoader cfg env fuel w) as [[[] | msg |] w1]; simpl in *;
    try discriminate.
  destruct (loadAll_follows cfg env withUsb withHdd isLoggingToFile w1)
    as (Hl2 & Hr2 & _).
  unfold result_of, world_after in *.
  set (e2 := emitted (loadAll cfg env withUsb withHdd isLoggingToFile) w1) in *.
  apply runs_no_patches in Hr2.
  rewrite Hl2, Hl1, <- app_assoc, skipn_app, skipn_all, Nat.sub_diag. simpl.
  inversion Hr1 as [rz evs Hc Hp Hrz He | n m rz evs Hc Hn Hm Hp Hrz He |];
    destruct rz as [r3 | |]; try discriminate;
    inversion Hp as [| | | r1 r2 r3' H1 H2 H3 E1 E2]; subst.
  - exists [], r1, r2, r3, e2. simpl. auto 10.
  - exists (reset_events (reset_arg cfg) n m), r1, r2, r3, e2.
    rewrite <- app_assoc. split; [reflexivity |].
    pose proof (loads_reset_events (reset_arg cfg) n m) as Hnl.
    pose proof (patches_reset_events (reset_arg cfg) n m) as Hnp.
    auto 10.
Qed.

Lemma C3_patches_before_loads_witness :
  result_of (bringUp cfg_full env_ok 1 true true false) initial_world = Ok tt /\
  exists pre r1 r2 r3 post,
    emitted (bringUp cfg_full env_ok 1 true true false) initial_world =
      pre ++
      [EvSbvPatch sbv_patch_enable_lmb r1;
       EvSbvPatch sbv_patch_disable_prefix_check r2;
       EvSbvPatch sbv_patch_fileio r3] ++ post /\
    0 <= r1 /\ 0 <= r2 /\ 0 <= r3 /\
    loads pre = [] /\ patches pre = [] /\ patches post = [].
Proof.
  split; [vm_compute; reflexivity |].
  apply (C3_patches_before_loads cfg_full env_ok 1 true true false
           initial_world tt).
  vm_compute. reflexivity.
Defined.

(** C4.  Conditional batches.  A first call [loadAll(false, false, _)] loads
    only images of the four required loaders (I/O, serial I/O, pad, sound)
    and of the audio server, in that order, never an image of the USB or HDD
    batch, and it never probes the USB device.  Since every call of
    [loadUsbModules] loads the USB driver and every call of [loadHddModules]
    loads ps2hdd, neither batch loader is called.  When the call returns, it
    has loaded exactly these: the two I/O images, sio2man, padman, libsd and
    audsrv. *)
Theorem C4_no_optional_batches (cfg : BuildConfig) (env : Environment)
    (isLoggingToFile : bool) (w : World) :
  isLoaded w = false ->
  let c := loadAll cfg env false false isLoggingToFile in
  (forall m, In m (loaded_modules (emitted c w)) ->
     loader_of m <> LoadUsbModules /\ loader_of m <> LoadHddModules) /\
  probes (emitted c w) = [] /\
  (forall verbose w',
     In (usb_driver cfg)
        (loaded_modules (emitted (loadUsbModules cfg env verbose) w')) /\
     In ps2hdd_irx
        (loaded_modules (emitted (loadHddModules cfg env verbose) w'))) /\
  (exists q,
     [iomanX_irx; fileXio_irx; sio2man_irx; padman_irx; libsd_irx; audsrv_irx]
     = loaded_modules (emitted c w) ++ q) /\
  (forall a, result_of c w = Ok a ->
     loaded_modules (emitted c w) =
       [iomanX_irx; fileXio_irx; sio2man_irx; padman_irx; libsd_irx;
        audsrv_irx] /\
     loaders_used (loaded_modules (emitted c w)) =
       [LoadIO; LoadSio2man; LoadPadman; LoadLibsd; LoadAudsrv]).
Proof.
  intros Hflag c.
  destruct (loadAll_follows cfg env false false isLoggingToFile w)
    as (_ & Hr & _).
  fold c in Hr. rewrite Hflag in Hr. simpl in Hr.
  assert (Hpre : exists q,
    [iomanX_irx; fileXio_irx; sio2man_irx; padman_irx; libsd_irx; audsrv_irx]
    = loaded_modules (emitted c w) ++ q).
  { destruct (runs_modules_prefix _ _ _ Hr) as (q & Hq).
    rewrite script_loadAll_modules in Hq. exists q. exact Hq. }
  split; [| split; [| split; [| split]]].
  - intros m Hin. destruct Hpre as (q & Hq).
    assert (Hin' : In m [iomanX_irx; fileXio_irx; sio2man_irx; padman_irx;
                         libsd_irx; audsrv_irx]).
    { rewrite Hq. apply in_or_app. left. exact Hin. }
    simpl in Hin'.
    repeat (destruct Hin' as [<- | Hin']; [split; discriminate |]).
    contradiction.
  - apply (runs_no_probes _ _ _ Hr). rewrite script_loadAll_waits. reflexivity.
  - intros verbose w'. split.
    + destruct (emits_emitted _ _ (loadUsbModules_follows cfg env verbose) w')
        as (_ & _ & Hu).
      unfold script_loadUsbModules, usb_driver in *.
      destruct (USE_USBDMINI cfg); eapply runs_first_load; exact Hu.
    + destruct (emits_emitted _ _ (loadHddModules_follows cfg env verbose) w')
        as (_ & _ & Hh).
      eapply runs_first_load. exact Hh.
  - exact Hpre.
  - intros a Ha. rewrite Ha in Hr.
    destruct (runs_ok_modules _ _ _ Hr) as (Hm & _).
    rewrite script_loadAll_modules in Hm. rewrite Hm.
    split; reflexivity.
Qed.

Lemma C4_no_optional_batches_witness :
  isLoaded initial_world = false /\
  result_of (loadAll cfg_full env_ok false false false) initial_world = Ok tt /\
  loaded_modules (emitted (loadAll cfg_full env_ok false false false)
                          initial_world) =
    [iomanX_irx; fileXio_irx; sio2man_irx; padman_irx; libsd_irx; audsrv_irx].
Proof.
  split; [reflexivity |]. split; [vm_compute; reflexivity |].
  apply (C4_no_optional_batches cfg_full env_ok false initial_world
           eq_refl) with (a := tt).
  vm_compute. reflexivity.
Defined.

(** C5.  Fixed overall sequence.  On a first call of [loadAll] the modules
    are loaded in the order: iomanX, fileXio, sio2man, padman, libsd, then the
    USB batch if [withUsb], then the HDD batch if [withHdd], then audsrv.
    Whatever the outcome, the modules loaded are an initial part of that
    sequence.  The call never hangs; when it returns, the whole sequence has
    been loaded, every status was non-negative, and [isLoaded] is set; the
    flag is set in no other case. *)
Theorem C5_fixed_sequence (cfg : BuildConfig) (env : Environment)
    (withUsb withHdd isLoggingToFile : bool) (w : World) :
  isLoaded w = false ->
  let c := loadAll cfg env withUsb withHdd isLoggingToFile in
  (exists q,
     bringup_sequence cfg withUsb withHdd =
     loaded_modules (emitted c w) ++ q) /\
  result_of c w <> Spin /\
  (forall a, result_of c w = Ok a ->
     loaded_modules (emitted c w) = bringup_sequence cfg withUsb withHdd /\
     Forall (fun x => 0 <= snd x) (loads (emitted c w)) /\
     assert_failures (emitted c w) = [] /\
     isLoaded (world_after c w) = true) /\
  (isLoaded (world_after c w) = true ->
     result_of c w = Ok tt /\
     loaded_modules (emitted c w) = bringup_sequence cfg withUsb withHdd).
Proof.
  intros Hflag c.
  destruct (loadAll_follows cfg env withUsb withHdd isLoggingToFile w)
    as (_ & Hr & Hf).
  fold c in Hr, Hf. rewrite Hflag in Hr, Hf. simpl in Hr.
  assert (Hok : forall a, result_of c w = Ok a ->
     loaded_modules (emitted c w) = bringup_sequence cfg withUsb withHdd /\
     Forall (fun x => 0 <= snd x) (loads (emitted c w)) /\
     assert_failures (emitted c w) = [] /\
     isLoaded (world_after c w) = true).
  { intros a Ha. rewrite Ha in Hr, Hf.
    destruct (runs_ok_modules _ _ _ Hr) as (Hm & Hall & Hassert & _).
    rewrite script_loadAll_modules in Hm. auto. }
  split; [| split; [| split]].
  - apply loadAll_modules_prefix. exact Hflag.
  - apply (runs_no_spin _ _ _ Hr).
  - exact Hok.
  - intros Hset. destruct (result_of c w) as [[] | msg |] eqn:Hres;
      try congruence.
    split; [reflexivity |]. apply (Hok tt eq_refl).
Qed.

Lemma C5_fixed_sequence_witness :
  isLoaded initial_world = false /\
  loaded_modules (emitted (loadAll cfg_full env_ok true true false)
                          initial_world) =
    [iomanX_irx; fileXio_irx; sio2man_irx; padman_irx; libsd_irx;
     usbd_mini_irx; usbmass_bd_mini_irx; bdm_irx; bdmfs_fatfs_irx;
     ps2hdd_irx; ps2fs_irx; ps2dev9_irx; ps2atad_irx; audsrv_irx] /\
  isLoaded (world_after (loadAll cfg_full env_ok true true false)
                        initial_world) = true.
Proof.
  split; [reflexivity |].
  destruct (C5_fixed_sequence cfg_full env_ok true true false initial_world
              eq_refl) as (_ & _ & Hok & _).
  destruct (Hok tt) as (Hm & _ & _ & Hf); [vm_compute; reflexivity |].
  split; [exact Hm | exact Hf].
Defined.

(** C6.  Dependency ordering inside the batches.  In every run of
    [loadUsbModules], and in every run of [loadAll], the block-device manager
    (bdm) is loaded only after the USB driver and the USB mass-storage bridge,
    the FAT filesystem (bdmfs_fatfs) only after bdm and as the last image of
    the USB batch; in every run of [loadHddModules], and of [loadAll], the
    filesystem (ps2fs) is loaded only after the HDD driver (ps2hdd). *)
Theorem C6_batch_dependency_order (cfg : BuildConfig) (env : Environment)
    (withUsb withHdd isLoggingToFile verbose : bool) (w : World) :
  batch_order cfg
    (loaded_modules (emitted (loadUsbModules cfg env verbose) w)) /\
  batch_order cfg
    (loaded_modules (emitted (loadHddModules cfg env verbose) w)) /\
  batch_order cfg
    (loaded_modules
       (emitted (loadAll cfg env withUsb withHdd isLoggingToFile) w)).
Proof.
  split; [| split].
  - destruct (emits_emitted _ _ (loadUsbModules_follows cfg env verbose) w)
      as (_ & _ & Hr).
    destruct (runs_modules_prefix _ _ _ Hr) as (q & Hq).
    apply batch_order_prefix with (q := q). rewrite <- Hq.
    replace (script_modules (script_loadUsbModules cfg verbose))
      with (usb_batch cfg).
    + apply batch_order_usb.
    + unfold script_loadUsbModules, usb_batch.
      destruct verbose, (USE_USBDMINI cfg); reflexivity.
  - destruct (emits_emitted _ _ (loadHddModules_follows cfg env verbose) w)
      as (_ & _ & Hr).
    destruct (runs_modules_prefix _ _ _ Hr) as (q & Hq).
    apply batch_order_prefix with (q := q). rewrite <- Hq.
    replace (script_modules (script_loadHddModules cfg verbose))
      with (hdd_batch cfg).
    + apply batch_order_hdd.
    + unfold script_loadHddModules, hdd_batch.
      destruct verbose, (ATAD cfg); reflexivity.
  - destruct (loadAll_follows cfg env withUsb withHdd isLoggingToFile w)
      as (_ & Hr & _).
    simpl in Hr. destruct (runs_modules_prefix _ _ _ Hr) as (q & Hq).
    apply batch_order_prefix with (q := q). rewrite <- Hq.
    unfold script_of_call. destruct (isLoaded w).
    + apply batch_order_nil.
    + rewrite script_loadAll_modules. apply batch_order_bringup.
Qed.

(** C7.  The readiness poll.  Every call of [waitUntilUsbDeviceIsReady]
    returns normally, with no failed assertion and [isLoaded] untouched.  It
    issues at most 50 [stat] probes; no probe follows one that answered 0;
    and when no probe answered 0 it has issued exactly 50. *)
Theorem C7_readiness_poll_bound (env : Environment) (w : World) :
  let c := waitUntilUsbDeviceIsReady env in
  result_of c w = Ok tt /\
  assert_failures (emitted c w) = [] /\
  isLoaded (world_after c w) = isLoaded w /\
  (List.length (probes (emitted c w)) <= 50)%nat /\
  (forall pre r post,
     probes (emitted c w) = pre ++ r :: post -> r = 0 -> post = []) /\
  (Forall (fun r => r <> 0) (probes (emitted c w)) ->
   List.length (probes (emitted c w)) = 50%nat).
Proof.
  intros c.
  destruct (emits_emitted _ _ (emits_waitUntilUsbDeviceIsReady env) w)
    as (_ & Hf & Hr & rs & Hrs & Hevs).
  fold c in Hf, Hr, Hevs. rewrite Hevs.
  rewrite probes_wait_events, assert_failures_wait_events.
  repeat split; auto.
  - apply (poll_results_length _ _ Hrs).
  - apply (poll_results_stop _ _ Hrs).
  - apply (poll_results_full _ _ Hrs).
Qed.

Lemma C7_readiness_poll_bound_witness :
  Forall (fun r => r <> 0)
    (probes (emitted (waitUntilUsbDeviceIsReady env_no_usb_device)
                     initial_world)) /\
  List.length
    (probes (emitted (waitUntilUsbDeviceIsReady env_no_usb_device)
                     initial_world)) = 50%nat.
Proof.
  assert (H : Forall (fun r => r <> 0)
    (probes (emitted (waitUntilUsbDeviceIsReady env_no_usb_device)
                     initial_world))).
  { vm_compute. repeat constructor; discriminate. }
  split; [exact H |].
  apply (C7_readiness_poll_bound env_no_usb_device initial_world). exact H.
Defined.

(** C8.  The patch applier.  [applyRpcPatches] invokes the capability
    toggles in the order enable-lmb, disable-prefix-check, fileio, and
    nothing else.  When it returns, all three were invoked, in that order,
    each with a status that is not negative, and the last status is returned.
    A toggle with a negative status is fatal: the failed assertion is the
    only event after it, so no further toggle is invoked. *)
Theorem C8_patch_applier (env : Environment) (w : World) :
  let c := applyRpcPatches env in
  isLoaded (world_after c w) = isLoaded w /\
  loads (emitted c w) = [] /\
  result_of c w <> Spin /\
  (exists q,
     [sbv_patch_enable_lmb; sbv_patch_disable_prefix_check; sbv_patch_fileio]
     = map fst (patches (emitted c w)) ++ q) /\
  (forall r, result_of c w = Ok r ->
     exists r1 r2,
       emitted c w = [EvSbvPatch sbv_patch_enable_lmb r1;
                      EvSbvPatch sbv_patch_disable_prefix_check r2;
                      EvSbvPatch sbv_patch_fileio r] /\
       0 <= r1 /\ 0 <= r2 /\ 0 <= r) /\
  (forall pre p z post,
     emitted c w = pre ++ EvSbvPatch p z :: post -> z < 0 ->
     exists msg, result_of c w = Halt msg /\ post = [EvAssertFail msg]) /\
  (Forall (fun x => 0 <= snd x) (patches (emitted c w)) ->
   exists r, result_of c w = Ok r).
Proof.
  intros c.
  destruct (emits_emitted _ _ (applyRpcPatches_runs env) w) as (_ & Hf & Hr).
  fold c in Hf, Hr.
  split; [exact Hf |]. split; [eapply patch_run_no_loads; exact Hr |].
  split; [intros Hs; rewrite Hs in Hr; inversion Hr |].
  split; [eapply patch_run_order; exact Hr |].
  split; [| split].
  - intros r Hres. rewrite Hres in Hr.
    inversion Hr as [| | | r1 r2 r3 H1 H2 H3 E1 E2]. subst. eauto 10.
  - apply (patch_run_fatal _ _ Hr).
  - apply (patch_run_all_ok _ _ Hr).
Qed.

Lemma C8_patch_applier_witness :
  emitted (applyRpcPatches env_prefix_check_fails) initial_world =
    [EvSbvPatch sbv_patch_enable_lmb 0] ++
    EvSbvPatch sbv_patch_disable_prefix_check (-1) ::
    [EvAssertFail
       "Failed to load Applying SBV Patches sbv_patch_disable_prefix_check"] /\
  -1 < 0 /\
  exists msg,
    result_of (applyRpcPatches env_prefix_check_fails) initial_world =
      Halt msg /\
    [EvAssertFail
       "Failed to load Applying SBV Patches sbv_patch_disable_prefix_check"]
    = [EvAssertFail msg].
Proof.
  split; [vm_compute; reflexivity |]. split; [lia |].
  destruct (C8_patch_applier env_prefix_check_fails initial_world)
    as (_ & _ & _ & _ & _ & Hfatal & _).
  apply (Hfatal [EvSbvPatch sbv_patch_enable_lmb 0]
                sbv_patch_disable_prefix_check (-1)).
  - vm_compute. reflexivity.
  - lia.
Defined.

(** C9, as the code has it.  Logging is a side channel that does not steer
    the program: on a platform that does not look at the log lines, two calls
    of [loadAll] from the same world that differ only in [isLoggingToFile]
    end the same way, load the same modules in the same order with the same
    statuses, and do the same things apart from the lines they log.  Passing
    [isLoggingToFile = true] suppresses the lines of every step of a first
    call except those of the audio-server step, which [loadAll] always asks
    to be verbose: a first call that returns has written exactly the two
    audsrv lines, and a first call that halts has written an initial part of
    them. *)
Theorem C9_logging_side_channel (cfg : BuildConfig) (env : Environment)
    (withUsb withHdd l1 l2 : bool) (w : World) :
  env_ignores_logging env ->
  let c1 := loadAll cfg env withUsb withHdd l1 in
  let c2 := loadAll cfg env withUsb withHdd l2 in
  let quiet := loadAll cfg env withUsb withHdd true in
  result_of c1 w = result_of c2 w /\
  without_logging (emitted c1 w) = without_logging (emitted c2 w) /\
  loads (emitted c1 w) = loads (emitted c2 w) /\
  isLoaded (world_after c1 w) = isLoaded (world_after c2 w) /\
  (isLoaded w = false ->
   (exists q, ["IRX: Loading audsrv..."; "IRX: Audsrv loaded!"] =
              log_lines (emitted quiet w) ++ q) /\
   (forall a, result_of quiet w = Ok a ->
      log_lines (emitted quiet w) =
      ["IRX: Loading audsrv..."; "IRX: Audsrv loaded!"])).
Proof.
  intros Hblind c1 c2 quiet.
  assert (Hsame : alike w w) by (split; reflexivity).
  destruct (sim_loadAll cfg env Hblind withUsb withHdd l1 l2 w w Hsame)
    as (Hres & Hflag & Hlog).
  fold c1 c2 in Hres, Hflag, Hlog.
  destruct (loadAll_follows cfg env withUsb withHdd l1 w) as (Hl1 & _ & _).
  destruct (loadAll_follows cfg env withUsb withHdd l2 w) as (Hl2 & _ & _).
  fold c1 in Hl1. fold c2 in Hl2.
  rewrite Hl1, Hl2, !without_logging_app in Hlog.
  apply app_inv_head in Hlog.
  split; [exact Hres |]. split; [exact Hlog |].
  split; [rewrite <- (loads_without_logging (emitted c1 w)), Hlog;
          apply loads_without_logging |].
  split; [exact Hflag |].
  intros Hfresh.
  destruct (loadAll_follows cfg env withUsb withHdd true w) as (_ & Hr & _).
  fold quiet in Hr. rewrite Hfresh in Hr. simpl in Hr. split.
  - destruct (runs_lines_prefix _ _ _ Hr) as (q & Hq).
    rewrite script_loadAll_quiet_lines in Hq. exists q. exact Hq.
  - intros a Ha. rewrite Ha in Hr.
    destruct (runs_ok_modules _ _ _ Hr) as (_ & _ & _ & Hlines).
    rewrite Hlines. apply script_loadAll_quiet_lines.
Qed.

Lemma C9_logging_side_channel_witness :
  env_ignores_logging env_ok /\
  loads (emitted (loadAll cfg_default env_ok true true true) initial_world) =
  loads (emitted (loadAll cfg_default env_ok true true false) initial_world).
Proof.
  split; [exact env_ok_ignores_logging |].
  apply (C9_logging_side_channel cfg_default env_ok true true true false
           initial_world env_ok_ignores_logging).
Defined.

(** C9, as the specification has it, fails: no value of [isLoggingToFile]
    keeps the audio-server step from writing its line. *)
Lemma C9_audsrv_line_not_suppressible :
  ~ (exists isLoggingToFile : bool,
       ~ In (EvLog "IRX: Loading audsrv...")
            (emitted (loadAll cfg_default env_ok false false isLoggingToFile)
                     initial_world)).
Proof.
  intros [[|] H]; apply H; vm_compute; auto 20.
Qed.

(** C10.  The constructor is outside the idempotency guard.  Whatever the
    value of [isLoaded], constructing an [IrxLoader] applies the patches:
    without [RESET_IOP] the first thing it does is the enable-lmb toggle;
    with [RESET_IOP], on a platform that acknowledges within the fuel, it
    first resets and resynchronises the I/O processor and then goes on to
    the toggle; it never hangs in either case, and when it returns all three
    toggles have been applied.  It leaves [isLoaded] alone.  By contrast a
    call of [loadAll] that finds [isLoaded] set loads and patches nothing. *)
Theorem C10_ctor_not_guarded (cfg : BuildConfig) (env : Environment)
    (fuel : nat) (w : World) :
  let c := IrxLoader cfg env fuel in
  isLoaded (world_after c w) = isLoaded w /\
  (RESET_IOP cfg = false ->
   result_of c w <> Spin /\
   exists r rest, emitted c w = EvSbvPatch sbv_patch_enable_lmb r :: rest) /\
  (RESET_IOP cfg = true -> acks_within fuel env (reset_arg cfg) ->
   result_of c w <> Spin /\
   exists n m r rest,
     emitted c w =
     reset_events (reset_arg cfg) n m ++
     EvSbvPatch sbv_patch_enable_lmb r :: rest) /\
  (forall a, result_of c w = Ok a ->
     map fst (patches (emitted c w)) =
     [sbv_patch_enable_lmb; sbv_patch_disable_prefix_check;
      sbv_patch_fileio]) /\
  (isLoaded w = true ->
   forall withUsb withHdd isLoggingToFile,
     loads (emitted (loadAll cfg env withUsb withHdd isLoggingToFile) w) = [] /\
     patches (emitted (loadAll cfg env withUsb withHdd isLoggingToFile) w)
       = []).
Proof.
  intros c.
  destruct (emits_emitted _ _ (IrxLoader_runs cfg env fuel) w)
    as (_ & Hf & Hr).
  fold c in Hf, Hr.
  assert (Hfirst : forall rz evs, patch_run rz evs ->
            exists r rest, evs = EvSbvPatch sbv_patch_enable_lmb r :: rest).
  { intros rz evs Hp. destruct Hp; eauto. }
  split; [exact Hf |]. split; [| split; [| split]].
  - intros Hcfg.
    assert (Hns : result_of c w <> Spin).
    { apply IrxLoader_returns_or_halts. congruence. }
    split; [exact Hns |].
    inversion Hr as [rz evs Hc Hp Hrz He | n m rz evs Hc Hn Hm Hp Hrz He
                     | evs Hc Hh Hrz He]; try congruence.
    eapply Hfirst; eassumption.
  - intros Hcfg Hacks.
    assert (Hns : result_of c w <> Spin).
    { apply IrxLoader_returns_or_halts. intros _. exact Hacks. }
    split; [exact Hns |].
    inversion Hr as [rz evs Hc Hp Hrz He | n m rz evs Hc Hn Hm Hp Hrz He
                     | evs Hc Hh Hrz He]; try congruence.
    destruct (Hfirst _ _ Hp) as (r & rest & ->).
    exists n, m, r, rest. reflexivity.
  - intros a Ha. rewrite Ha in Hr.
    inversion Hr as [rz evs Hc Hp Hrz He | n m rz evs Hc Hn Hm Hp Hrz He |];
      destruct rz as [r3 | |]; try discriminate;
      inversion Hp as [| | | r1 r2 r3' H1 H2 H3 E1 E2]; subst;
      [reflexivity |].
    change (map fst
              (patches (reset_events (reset_arg cfg) n m ++
                        [EvSbvPatch sbv_patch_enable_lmb r1;
                         EvSbvPatch sbv_patch_disable_prefix_check r2;
                         EvSbvPatch sbv_patch_fileio r3])) =
            [sbv_patch_enable_lmb; sbv_patch_disable_prefix_check;
             sbv_patch_fileio]).
    rewrite patches_app, patches_reset_events. reflexivity.
  - intros Hflag withUsb withHdd isLoggingToFile.
    destruct (loadAll_follows cfg env withUsb withHdd isLoggingToFile w)
      as (_ & Hrun & _).
    simpl in Hrun. rewrite Hflag in Hrun. simpl in Hrun.
    split; [| eapply runs_no_patches; exact Hrun].
    destruct (runs_modules_prefix _ _ _ Hrun) as (q & Hq).
    simpl in Hq. symmetry in Hq. apply app_eq_nil in Hq.
    destruct Hq as [Hq _]. apply map_eq_nil in Hq. exact Hq.
Qed.

Lemma C10_ctor_not_guarded_witness :
  let w := world_after (loadAll cfg_full env_ok false false true)
                       initial_world in
  isLoaded w = true /\
  RESET_IOP cfg_full = true /\
  acks_within 1 env_ok (reset_arg cfg_full) /\
  result_of (IrxLoader cfg_full env_ok 1) w = Ok tt /\
  map fst (patches (emitted (IrxLoader cfg_full env_ok 1) w)) =
    [sbv_patch_enable_lmb; sbv_patch_disable_prefix_check; sbv_patch_fileio].
Proof.
  intros w.
  split; [reflexivity |]. split; [reflexivity |].
  split; [apply acks_at_once |].
  split; [vm_compute; reflexivity |].
  destruct (C10_ctor_not_guarded cfg_full env_ok 1 w)
    as (_ & _ & Hreset & Hall & _).
  pose proof (Hreset eq_refl (acks_at_once (reset_arg cfg_full))) as _.
  apply (Hall tt). vm_compute. reflexivity.
Defined.

(** * Further properties of the loader *)

(** ** More facts about logs and runs *)

Section MoreFacts.

Lemma In_patches (p : SbvPatch) (z : Z) (evs : list Event) :
  In (EvSbvPatch p z) evs -> In (p, z) (patches evs).
Proof.
  induction evs as [| e evs IH]; simpl; [tauto |].
  intros [E | H]; [subst e; simpl; auto |].
  destruct e; simpl; auto.
Qed.

Lemma In_probes (path : string) (r : Z) (evs : list Event) :
  In (EvStat path r) evs -> In r (probes evs).
Proof.
  induction evs as [| e evs IH]; simpl; [tauto |].
  intros [E | H]; [subst e; simpl; auto |].
  destruct e; simpl; auto.
Qed.

Lemma In_loaded_modules (m : Irx) (z : Z) (evs : list Event) :
  In (EvExecModule m z) evs -> In m (loaded_modules evs).
Proof.
  intros H. apply In_loads in H. unfold loaded_modules.
  change m with (fst (m, z)). apply in_map. exact H.
Qed.

(** A run that halts fails the assertion of an item of its script. *)
Lemma runs_halt_item p msg evs :
  runs p (Halt msg) evs ->
  exists pre m z,
    evs = pre ++ [EvExecModule m z; EvAssertFail msg] /\
    z < 0 /\ In (ILoad m msg) p.
Proof.
  intros H. remember (Halt msg) as r0 eqn:Hr0.
  induction H as [| s p r evs H IH | m msg' z p r evs Hz H IH | m msg' z p Hz
                  | rs p r evs Hrs H IH]; try discriminate.
  - destruct (IH Hr0) as (pre & m & z & E & Hz & Hin).
    exists (EvLog s :: pre), m, z. subst evs. simpl. auto.
  - destruct (IH Hr0) as (pre & m0 & z0 & E & Hz0 & Hin).
    exists (EvExecModule m z :: pre), m0, z0. subst evs. simpl. auto.
  - inversion Hr0; subst. exists [], m, z. simpl. auto.
  - destruct (IH Hr0) as (pre & m & z & E & Hz & Hin).
    exists (wait_events rs ++ pre), m, z. subst evs.
    rewrite <- app_assoc. simpl. auto.
Qed.

(** A run of two scripts in a row is a run of the first that returns followed
    by a run of the second, or a run of the first that halts. *)
Lemma runs_split p q r evs :
  runs (p ++ q) r evs ->
  (exists e1 e2, evs = e1 ++ e2 /\ runs p (Ok tt) e1 /\ runs q r e2) \/
  (exists msg, r = Halt msg /\ runs p (Halt msg) evs).
Proof.
  revert r evs. induction p as [| i p IH]; intros r evs H.
  - left. exists [], evs. simpl in *. auto.
  - rewrite <- app_comm_cons in H.
    inversion H as [| s p' r' evs' H' | m msg z p' r' evs' Hz H'
                    | m msg z p' Hz | rs p' r' evs' Hrs H']; subst.
    + destruct (IH _ _ H') as [(e1 & e2 & E & H1 & H2) | (msg & E & H1)].
      * left. exists (EvLog s :: e1), e2. subst evs'. simpl. auto.
      * right. exists msg. subst r. auto.
    + destruct (IH _ _ H') as [(e1 & e2 & E & H1 & H2) | (msg' & E & H1)].
      * left. exists (EvExecModule m z :: e1), e2. subst evs'. simpl. auto.
      * right. exists msg'. subst r. auto.
    + right. exists msg. auto.
    + destruct (IH _ _ H') as [(e1 & e2 & E & H1 & H2) | (msg & E & H1)].
      * left. exists (wait_events rs ++ e1), e2. subst evs'.
        rewrite app_assoc. auto.
      * right. exists msg. subst r. auto.
Qed.

Lemma split_before_suffix (b c pre post : list Event) (x : Event) :
  ~ In x c -> b ++ c = pre ++ x :: post ->
  exists b2, b = pre ++ x :: b2 /\ post = b2 ++ c.
Proof.
  revert b. induction pre as [| y pre IH]; intros b Hnin E.
  - destruct b as [| y b]; simpl in E.
    + exfalso. apply Hnin. rewrite E. simpl. auto.
    + inversion E; subst. exists b. auto.
  - destruct b as [| y' b]; simpl in E.
    + exfalso. apply Hnin. rewrite E. simpl. right.
      apply in_or_app. right. simpl. auto.
    + inversion E; subst. destruct (IH b Hnin H1) as (b2 & Hb & Hp).
      exists b2. subst b. auto.
Qed.

End MoreFacts.



(** ** More facts about the constructor *)

Section MoreCtorFacts.

Variable cfg : BuildConfig.
Variable env : Environment.

Lemma patch_run_ok_statuses rz evs :
  patch_run rz evs ->
  forall a, drop_status rz = Ok a ->
  Forall (fun x => 0 <= snd x) (patches evs).
Proof.
  destruct 1; intros a Ha; try discriminate. repeat constructor; assumption.
Qed.

Lemma ctor_run_ok_statuses (fuel : nat) (a : unit) evs :
  ctor_run cfg fuel (Ok a) evs ->
  Forall (fun x => 0 <= snd x) (patches evs).
Proof.
  intros H.
  inversion H as [rz evs' Hc Hp Hrz He | n m rz evs' Hc Hn Hm Hp Hrz He |];
    subst.
  - eapply patch_run_ok_statuses; eauto.
  - rewrite patches_app, patches_reset_events. simpl.
    eapply patch_run_ok_statuses; eauto.
Qed.

Lemma reset_run_no_patches (arg : option string) (fuel : nat) r evs :
  reset_run arg fuel r evs -> patches evs = [].
Proof.
  destruct 1.
  - apply patches_reset_events.
  - simpl. apply patches_repeat_not_patch. reflexivity.
  - simpl. rewrite patches_app. simpl.
    rewrite !patches_repeat_not_patch by reflexivity. reflexivity.
Qed.

Lemma not_in_reset_events (arg : option string) (n m : nat) (p : SbvPatch)
    (z : Z) :
  ~ In (EvSbvPatch p z) (reset_events arg n m).
Proof.
  intros H. apply In_patches in H. rewrite patches_reset_events in H.
  exact H.
Qed.

(** A loop that is refused at every poll uses up its fuel. *)
Lemma spin_until_refused (poll : M bool) (ev : Event) :
  (forall w, poll w = (Ok false, mkWorld (isLoaded w) (log w ++ [ev]))) ->
  forall fuel w,
    spin_until fuel poll w =
    (Spin, mkWorld (isLoaded w) (log w ++ repeat ev fuel)).
Proof.
  intros Hpoll fuel. induction fuel as [| fuel IH]; intros w; simpl.
  - rewrite app_nil_r. destruct w; reflexivity.
  - unfold bind. rewrite Hpoll, IH. simpl. rewrite <- app_assoc. reflexivity.
Qed.

End MoreCtorFacts.

(** X2.  A refused patch aborts the bring-up before anything is loaded.  In a
    bring-up run (construct the loader, then call [loadAll]), when some
    capability toggle has answered with a negative status the run halts, no
    module has been loaded, and [isLoaded] is left as it was. *)
Theorem X2_patch_failure_aborts_bringup (cfg : BuildConfig) (env : Environment)
    (fuel : nat) (withUsb withHdd isLoggingToFile : bool) (w : World)
    (p : SbvPatch) (z : Z) :
  let c := bringUp cfg env fuel withUsb withHdd isLoggingToFile in
  In (EvSbvPatch p z) (emitted c w) -> z < 0 ->
  exists msg,
    result_of c w = Halt msg /\
    loads (emitted c w) = [] /\
    probes (emitted c w) = [] /\
    isLoaded (world_after c w) = isLoaded w.
Proof.
  intros c Hin Hz.
  destruct (IrxLoader_runs cfg env fuel w) as (e1 & Hl1 & Hf1 & Hr1).
  unfold c, bringUp, emitted, result_of, world_after, bind in *.
  destruct (IrxLoader cfg env fuel w) as [[[] | msg |] w1]; simpl in *.
  - exfalso.
    destruct (loadAll_follows cfg env withUsb withHdd isLoggingToFile w1)
      as (Hl2 & Hr2 & _).
    unfold result_of, world_after in *.
    apply runs_no_patches in Hr2.
    rewrite Hl2, Hl1, <- app_assoc, skipn_app, skipn_all, Nat.sub_diag in Hin.
    simpl in Hin. apply In_patches in Hin.
    rewrite patches_app, Hr2, app_nil_r in Hin.
    pose proof (ctor_run_ok_statuses cfg fuel tt e1 Hr1) as Hall.
    rewrite Forall_forall in Hall. apply Hall in Hin. simpl in Hin. lia.
  - rewrite Hl1, skipn_app, skipn_all, Nat.sub_diag in *. simpl in *.
    exists msg. repeat split; auto.
    + eapply ctor_run_no_loads; exact Hr1.
    + inversion Hr1 as [rz evs Hc Hp Hrz He | n m rz evs Hc Hn Hm Hp Hrz He |];
        subst; [destruct Hp; reflexivity |].
      rewrite probes_app.
      assert (Hrep : forall e k, probes [e] = [] -> probes (repeat e k) = []).
      { intros e k He. induction k as [| k IH]; simpl; auto.
        destruct e; simpl in *; auto; discriminate. }
      unfold reset_events. simpl. rewrite probes_app. simpl.
      rewrite probes_app. simpl. rewrite !Hrep by reflexivity.
      destruct Hp; reflexivity.
  - exfalso. rewrite Hl1, skipn_app, skipn_all, Nat.sub_diag in Hin.
    simpl in Hin. apply In_patches in Hin.
    inversion Hr1 as [rz evs Hc Hp Hrz He | n m rz evs Hc Hn Hm Hp Hrz He
                      | evs Hc Hh Hrz He]; subst.
    + destruct Hp; discriminate.
    + destruct Hp; discriminate.
    + rewrite (reset_run_no_patches _ _ _ _ Hh) in Hin. exact Hin.
Qed.

Lemma X2_patch_failure_aborts_bringup_witness :
  In (EvSbvPatch sbv_patch_disable_prefix_check (-1))
     (emitted (bringUp cfg_full env_prefix_check_fails 1 true true false)
              initial_world) /\
  -1 < 0 /\
  exists msg,
    result_of (bringUp cfg_full env_prefix_check_fails 1 true true false)
              initial_world = Halt msg /\
    loads (emitted (bringUp cfg_full env_prefix_check_fails 1 true true false)
                   initial_world) = [] /\
    probes (emitted (bringUp cfg_full env_prefix_check_fails 1 true true false)
                    initial_world) = [] /\
    isLoaded (world_after
                (bringUp cfg_full env_prefix_check_fails 1 true true false)
                initial_world) = isLoaded initial_world.
Proof.
  assert (H : In (EvSbvPatch sbv_patch_disable_prefix_check (-1))
     (emitted (bringUp cfg_full env_prefix_check_fails 1 true true false)
              initial_world)).
  { vm_compute. auto 10. }
  split; [exact H |]. split; [lia |].
  apply (X2_patch_failure_aborts_bringup cfg_full env_prefix_check_fails 1
           true true false initial_world sbv_patch_disable_prefix_check (-1) H).
  lia.
Defined.

(** X3.  The constructor touches nothing but the RPC channel, and patches
    only a processor that was reset.  It never loads a module, probes the
    device or writes a log line.  Without [RESET_IOP] it does nothing besides
    the toggles and their assertions.  With [RESET_IOP], every toggle comes
    after the whole reset sequence: SifInitRpc, resets up to an acknowledged
    one, syncs up to an acknowledged one, SifInitRpc. *)
Theorem X3_ctor_resets_before_patching (cfg : BuildConfig) (env : Environment)
    (fuel : nat) (w : World) :
  let evs := emitted (IrxLoader cfg env fuel) w in
  loads evs = [] /\
  (RESET_IOP cfg = false ->
   forall e, In e evs ->
     (exists p z, e = EvSbvPatch p z) \/ (exists msg, e = EvAssertFail msg)) /\
  (RESET_IOP cfg = true ->
   forall pre p z post,
     evs = pre ++ EvSbvPatch p z :: post ->
     exists n m rest,
       (n < fuel)%nat /\ (m < fuel)%nat /\
       pre = reset_events (reset_arg cfg) n m ++ rest).
Proof.
  intros evs.
  destruct (emits_emitted _ _ (IrxLoader_runs cfg env fuel) w)
    as (_ & _ & Hr).
  fold evs in Hr. clearbody evs.
  split; [eapply ctor_run_no_loads; exact Hr |]. split.
  - intros Hcfg e Hin.
    inversion Hr as [rz evs' Hc Hp Hrz He | n m rz evs' Hc Hn Hm Hp Hrz He
                     | evs' Hc Hh Hrz He]; try congruence.
    subst evs'.
    destruct Hp; simpl in Hin;
      repeat (destruct Hin as [<- | Hin];
              [first [left; do 2 eexists; reflexivity
                     | right; eexists; reflexivity] |]);
      contradiction.
  - intros Hcfg pre p z post E.
    inversion Hr as [rz evs' Hc Hp Hrz He | n m rz evs' Hc Hn Hm Hp Hrz He
                     | evs' Hc Hh Hrz He]; try congruence.
    + rewrite E in He.
      apply split_after_prefix in He; [| apply not_in_reset_events].
      destruct He as (pre' & Hpre & _). exists n, m, pre'. auto.
    + exfalso.
      assert (Hin : In (EvSbvPatch p z) evs').
      { rewrite He, E. apply in_or_app. right. simpl. auto. }
      apply In_patches in Hin.
      rewrite He, (reset_run_no_patches _ _ _ _ Hh) in Hin. exact Hin.
Qed.

Lemma X3_ctor_resets_before_patching_witness :
  RESET_IOP cfg_full = true /\
  emitted (IrxLoader cfg_full env_ok 1) initial_world =
    [EvSifInitRpc; EvSifIopReset (Some EmptyString) true; EvSifIopSync true;
     EvSifInitRpc] ++
    EvSbvPatch sbv_patch_enable_lmb 0 ::
    [EvSbvPatch sbv_patch_disable_prefix_check 0;
     EvSbvPatch sbv_patch_fileio 0] /\
  exists n m rest,
    (n < 1)%nat /\ (m < 1)%nat /\
    [EvSifInitRpc; EvSifIopReset (Some EmptyString) true; EvSifIopSync true;
     EvSifInitRpc] = reset_events (reset_arg cfg_full) n m ++ rest.
Proof.
  split; [reflexivity |]. split; [vm_compute; reflexivity |].
  destruct (X3_ctor_resets_before_patching cfg_full env_ok 1 initial_world)
    as (_ & _ & H).
  apply (H eq_refl
           [EvSifInitRpc; EvSifIopReset (Some EmptyString) true;
            EvSifIopSync true; EvSifInitRpc]
           sbv_patch_enable_lmb 0
           [EvSbvPatch sbv_patch_disable_prefix_check 0;
            EvSbvPatch sbv_patch_fileio 0]).
  vm_compute. reflexivity.
Defined.

(** X4.  An unresponsive I/O processor hangs the constructor.  With
    [RESET_IOP], when every reset is refused the constructor never leaves the
    reset loop, however much fuel it is given: it has called SifInitRpc once
    and polled the reset [fuel] times, and nothing else.  When resets are
    acknowledged but every sync is refused, it never leaves the sync loop. *)
Theorem X4_ctor_hangs_when_unanswered (cfg : BuildConfig) (env : Environment)
    (fuel : nat) (w : World) :
  RESET_IOP cfg = true ->
  ((forall h a, env_SifIopReset env h a = false) ->
   result_of (IrxLoader cfg env fuel) w = Spin /\
   emitted (IrxLoader cfg env fuel) w =
     EvSifInitRpc :: repeat (EvSifIopReset (reset_arg cfg) false) fuel) /\
  ((forall h a, env_SifIopReset env h a = true) ->
   (forall h, env_SifIopSync env h = false) ->
   (0 < fuel)%nat ->
   result_of (IrxLoader cfg env fuel) w = Spin /\
   emitted (IrxLoader cfg env fuel) w =
     EvSifInitRpc :: EvSifIopReset (reset_arg cfg) true ::
     repeat (EvSifIopSync false) fuel).
Proof.
  intros Hcfg. split.
  - intros Hreset.
    assert (Hrun : IrxLoader cfg env fuel w =
              (Spin,
               mkWorld (isLoaded w)
                 (log w ++ EvSifInitRpc ::
                  repeat (EvSifIopReset (reset_arg cfg) false) fuel))).
    { unfold IrxLoader. fold (reset_arg cfg). rewrite Hcfg.
      unfold when, bind, SifInitRpc, emit. cbv beta iota.
      rewrite (spin_until_refused (SifIopReset env (reset_arg cfg))
                 (EvSifIopReset (reset_arg cfg) false)).
      - simpl. rewrite <- app_assoc. reflexivity.
      - intros v. unfold SifIopReset. rewrite Hreset. reflexivity. }
    unfold emitted, result_of, world_after. rewrite Hrun. simpl.
    rewrite skipn_app, skipn_all, Nat.sub_diag. auto.
  - intros Hreset Hsync Hfuel. destruct fuel as [| fuel]; [lia |].
    assert (Hrun : IrxLoader cfg env (S fuel) w =
              (Spin,
               mkWorld (isLoaded w)
                 (log w ++ EvSifInitRpc ::
                  EvSifIopReset (reset_arg cfg) true ::
                  repeat (EvSifIopSync false) (S fuel)))).
    { unfold IrxLoader. fold (reset_arg cfg). rewrite Hcfg.
      unfold when, bind, SifInitRpc, emit. cbv beta iota.
      change (spin_until (S fuel) (SifIopReset env (reset_arg cfg)))
        with (ok <- SifIopReset env (reset_arg cfg) ;;
              if ok then ret tt
              else spin_until fuel (SifIopReset env (reset_arg cfg))).
      unfold bind, SifIopReset at 1. simpl log. rewrite Hreset.
      cbv beta iota. unfold ret at 1. cbv beta iota.
      rewrite (spin_until_refused (SifIopSync env) (EvSifIopSync false)).
      - simpl. rewrite <- !app_assoc, Hreset. reflexivity.
      - intros v. unfold SifIopSync. rewrite Hsync. reflexivity. }
    unfold emitted, result_of, world_after. rewrite Hrun. simpl.
    rewrite skipn_app, skipn_all, Nat.sub_diag. auto.
Qed.

Lemma X4_ctor_hangs_when_unanswered_witness :
  RESET_IOP cfg_full = true /\
  (forall h a, env_SifIopReset env_reset_refused h a = false) /\
  result_of (IrxLoader cfg_full env_reset_refused 7) initial_world = Spin /\
  emitted (IrxLoader cfg_full env_reset_refused 7) initial_world =
    EvSifInitRpc :: repeat (EvSifIopReset (reset_arg cfg_full) false) 7 /\
  (forall h a, env_SifIopReset env_sync_refused h a = true) /\
  (forall h, env_SifIopSync env_sync_refused h = false) /\
  (0 < 7)%nat /\
  emitted (IrxLoader cfg_full env_sync_refused 7) initial_world =
    EvSifInitRpc :: EvSifIopReset (reset_arg cfg_full) true ::
    repeat (EvSifIopSync false) 7.
Proof.
  split; [reflexivity |]. split; [intros h a; reflexivity |].
  destruct (X4_ctor_hangs_when_unanswered cfg_full env_reset_refused 7
              initial_world eq_refl) as [Hreset _].
  destruct (Hreset (fun h a => eq_refl)) as [Hres Hevs].
  split; [exact Hres |]. split; [exact Hevs |].
  split; [intros h a; reflexivity |]. split; [intros h; reflexivity |].
  split; [lia |].
  destruct (X4_ctor_hangs_when_unanswered cfg_full env_sync_refused 7
              initial_world eq_refl) as [_ Hsync].
  apply (Hsync (fun h a => eq_refl) (fun h => eq_refl)). lia.
Defined.

(** ** More facts about the poll and the scripts *)

Section MorePollFacts.

Lemma poll_results_first (n : nat) (rs : list Z) :
  poll_results (S n) rs -> (1 <= List.length rs)%nat.
Proof. inversion 1; simpl; lia. Qed.

Lemma In_wait_events (e : Event) (rs : list Z) :
  In e (wait_events rs) ->
  e = EvNops 16777216 \/ e = EvNopDelay \/ exists r, e = EvStat "mass:/" r.
Proof.
  unfold wait_events. intros H. apply in_app_or in H. destruct H as [H | H].
  - apply repeat_spec in H. auto.
  - apply in_flat_map in H. destruct H as (r & _ & H). simpl in H.
    destruct H as [H | [H | H]]; [eauto | auto | contradiction].
Qed.

Lemma In_script_modules (m : Irx) (msg : string) (p : list Item) :
  In (ILoad m msg) p -> In m (script_modules p).
Proof.
  induction p as [| i p IH]; simpl; [tauto |].
  intros [E | H]; [subst i; simpl; auto |].
  destruct i; simpl; auto.
Qed.

(** The script of a first call with [withUsb]: what comes before the poll
    and what comes after it. *)
Lemma script_loadAll_around_poll (cfg : BuildConfig)
    (withHdd isLoggingToFile : bool) :
  exists p1 p2,
    script_loadAll cfg true withHdd isLoggingToFile = p1 ++ IWait :: p2 /\
    script_waits p1 = O /\ script_waits p2 = O /\
    script_modules p1 = required_modules ++ usb_batch cfg /\
    script_modules p2 =
      (if withHdd then hdd_batch cfg else []) ++ [audsrv_irx].
Proof.
  set (v := negb isLoggingToFile).
  exists (script_loadIO v ++ script_loadSio2man v ++ script_loadPadman v ++
          script_loadLibsd v ++
          log_item v "IRX: Loading usb modules..." ++
          (if USE_USBDMINI cfg then
             [ILoad usbd_mini_irx "Failed to load module: usbd_irx";
              ILoad usbmass_bd_mini_irx "Failed to load module: usbmass"]
           else
             [ILoad usbd_irx "Failed to load module: usbd_irx";
              ILoad usbmass_bd_irx "Failed to load module: usbmass"]) ++
          [ILoad bdm_irx "Failed to load module: bdm_irx";
           ILoad bdmfs_fatfs_irx "Failed to load module: bdmfs_fatfs"]),
         (log_item v "IRX: Usb modules loaded!" ++
          (if withHdd then script_loadHddModules cfg v else []) ++
          script_loadAudsrv true).
  unfold script_loadAll, script_loadUsbModules, script_loadHddModules,
    usb_batch, hdd_batch. fold v.
  destruct v, withHdd, (USE_USBDMINI cfg), (ATAD cfg); repeat split.
Qed.

Lemma script_loadAll_messages (cfg : BuildConfig)
    (withUsb withHdd isLoggingToFile : bool) (m : Irx) (msg : string) :
  In (ILoad m msg) (script_loadAll cfg withUsb withHdd isLoggingToFile) ->
  msg = assert_message m.
Proof.
  unfold script_loadAll, script_loadUsbModules, script_loadHddModules.
  destruct withUsb, withHdd, isLoggingToFile, (USE_USBDMINI cfg), (ATAD cfg);
    simpl; intros H;
    repeat (destruct H as [H | H];
            [first [discriminate H | inversion H; reflexivity] |]);
    contradiction.
Qed.

Lemma assert_message_inj (cfg : BuildConfig) (withUsb withHdd : bool)
    (m1 m2 : Irx) :
  In m1 (bringup_sequence cfg withUsb withHdd) ->
  In m2 (bringup_sequence cfg withUsb withHdd) ->
  assert_message m1 = assert_message m2 -> m1 = m2.
Proof.
  intros H1 H2 E.
  destruct m1, m2; try reflexivity; try discriminate E; exfalso;
    unfold bringup_sequence, usb_batch, hdd_batch in H1, H2;
    destruct withUsb, withHdd, (USE_USBDMINI cfg), (ATAD cfg);
    simpl in H1, H2; intuition discriminate.
Qed.

End MorePollFacts.

(** X5.  The shape of the readiness poll.  [waitUntilUsbDeviceIsReady] first
    busy-waits five rounds of 0x01000000 nop blocks, then alternates a [stat]
    of "mass:/" with a nopdelay; every probe, the successful one too, is
    followed by a nopdelay.  It always probes at least once, and at most 50
    times. *)
Theorem X5_poll_shape (env : Environment) (w : World) :
  exists rs,
    emitted (waitUntilUsbDeviceIsReady env) w =
      repeat (EvNops 16777216) 5 ++
      flat_map (fun r => [EvStat "mass:/" r; EvNopDelay]) rs /\
    (1 <= List.length rs <= 50)%nat.
Proof.
  destruct (emits_emitted _ _ (emits_waitUntilUsbDeviceIsReady env) w)
    as (_ & _ & _ & rs & Hrs & Hevs).
  exists rs. split; [exact Hevs |]. split.
  - apply (poll_results_first _ _ Hrs).
  - apply (poll_results_length _ _ Hrs).
Qed.

(** X6.  Where the readiness probes sit in a call of [loadAll].  A [stat]
    probe is issued only when [withUsb] is set, always on "mass:/", and only
    once the required modules and the whole USB batch have been loaded, each
    with a status that is not negative; whatever is loaded after a probe
    belongs to the HDD batch or is the audio server.  One call issues at most
    50 probes. *)
Theorem X6_probes_follow_usb_batch (cfg : BuildConfig) (env : Environment)
    (withUsb withHdd isLoggingToFile : bool) (w : World)
    (pre post : list Event) (path : string) (r : Z) :
  emitted (loadAll cfg env withUsb withHdd isLoggingToFile) w =
    pre ++ EvStat path r :: post ->
  withUsb = true /\
  path = "mass:/" /\
  loaded_modules pre = required_modules ++ usb_batch cfg /\
  Forall (fun x => 0 <= snd x) (loads pre) /\
  (exists q,
     (if withHdd then hdd_batch cfg else []) ++ [audsrv_irx] =
     loaded_modules post ++ q) /\
  (List.length
     (probes (emitted (loadAll cfg env withUsb withHdd isLoggingToFile) w))
   <= 50)%nat.
Proof.
  intros E.
  destruct (loadAll_follows cfg env withUsb withHdd isLoggingToFile w)
    as (_ & Hr & _).
  simpl in Hr.
  set (evs := emitted (loadAll cfg env withUsb withHdd isLoggingToFile) w) in *.
  set (res := result_of (loadAll cfg env withUsb withHdd isLoggingToFile) w)
    in *.
  clearbody evs res.
  assert (Hprobe : In r (probes evs)).
  { apply In_probes with (path := path). rewrite E.
    apply in_or_app. right. simpl. auto. }
  assert (Hno : forall p rr ee,
            runs p rr ee -> script_waits p = O ->
            ~ In (EvStat path r) ee).
  { intros p rr ee Hrun Hw Hin. apply In_probes in Hin.
    rewrite (runs_no_probes _ _ _ Hrun Hw) in Hin. exact Hin. }
  unfold script_of_call in Hr. destruct (isLoaded w).
  { exfalso. rewrite (runs_no_probes _ _ _ Hr) in Hprobe; auto. }
  destruct withUsb.
  2: { exfalso. rewrite (runs_no_probes _ _ _ Hr) in Hprobe; auto.
       apply script_loadAll_waits. }
  pose proof (runs_probes_bound _ _ _ Hr) as Hbound.
  rewrite script_loadAll_waits in Hbound.
  destruct (script_loadAll_around_poll cfg withHdd isLoggingToFile)
    as (p1 & p2 & Hs & Hw1 & Hw2 & Hm1 & Hm2).
  rewrite Hs in Hr. apply runs_split in Hr.
  destruct Hr as [(e1 & e2 & Hevs & Hr1 & Hr2) | (msg & _ & Hr1)].
  2: { exfalso. rewrite (runs_no_probes _ _ _ Hr1 Hw1) in Hprobe.
       exact Hprobe. }
  rewrite Hevs in E.
  inversion Hr2 as [| | | | rs p' r' e3 Hrs Hr3]; subst.
  apply split_after_prefix in E; [| apply (Hno _ _ _ Hr1 Hw1)].
  destruct E as (pre' & Hpre & E).
  apply split_before_suffix in E; [| apply (Hno _ _ _ Hr3 Hw2)].
  destruct E as (b2 & Hwait & Hpost).
  assert (Hnl : loads pre' = [] /\ loads b2 = []).
  { pose proof (loads_wait_events rs) as Hl. rewrite Hwait in Hl.
    rewrite loads_app in Hl. apply app_eq_nil in Hl.
    destruct Hl as [Hl1 Hl2]. simpl in Hl2. auto. }
  destruct Hnl as [Hnl1 Hnl2].
  destruct (runs_ok_modules _ _ _ Hr1) as (Hmods & Hall & _).
  split; [reflexivity |]. split.
  { assert (Hin : In (EvStat path r) (wait_events rs)).
    { rewrite Hwait. apply in_or_app. right. simpl. auto. }
    apply In_wait_events in Hin.
    destruct Hin as [Hin | [Hin | (r0 & Hin)]]; try discriminate.
    inversion Hin. reflexivity. }
  subst pre post. unfold loaded_modules in *.
  rewrite !loads_app, Hnl1, Hnl2, app_nil_r. simpl.
  split; [rewrite Hmods; exact Hm1 |]. split; [exact Hall |].
  split; [| simpl in Hbound; lia].
  destruct (runs_modules_prefix _ _ _ Hr3) as (q & Hq).
  exists q. rewrite <- Hm2. exact Hq.
Qed.

Lemma X6_probes_follow_usb_batch_witness :
  emitted (loadAll cfg_default env_ok true true true) initial_world =
    [EvExecModule iomanX_irx 0; EvExecModule fileXio_irx 0;
     EvExecModule sio2man_irx 0; EvExecModule padman_irx 0;
     EvExecModule libsd_irx 0; EvExecModule usbd_irx 0;
     EvExecModule usbmass_bd_irx 0; EvExecModule bdm_irx 0;
     EvExecModule bdmfs_fatfs_irx 0;
     EvNops 16777216; EvNops 16777216; EvNops 16777216; EvNops 16777216;
     EvNops 16777216] ++
    EvStat "mass:/" 0 ::
    [EvNopDelay; EvExecModule ps2hdd_irx 0; EvExecModule ps2fs_irx 0;
     EvExecModule ps2dev9_irx 0; EvLog "IRX: Loading audsrv...";
     EvExecModule audsrv_irx 0; EvLog "IRX: Audsrv loaded!"] /\
  loaded_modules
    [EvExecModule iomanX_irx 0; EvExecModule fileXio_irx 0;
     EvExecModule sio2man_irx 0; EvExecModule padman_irx 0;
     EvExecModule libsd_irx 0; EvExecModule usbd_irx 0;
     EvExecModule usbmass_bd_irx 0; EvExecModule bdm_irx 0;
     EvExecModule bdmfs_fatfs_irx 0;
     EvNops 16777216; EvNops 16777216; EvNops 16777216; EvNops 16777216;
     EvNops 16777216] = required_modules ++ usb_batch cfg_default.
Proof.
  split; [vm_compute; reflexivity |].
  apply (X6_probes_follow_usb_batch cfg_default env_ok true true true
           initial_world
           [EvExecModule iomanX_irx 0; EvExecModule fileXio_irx 0;
            EvExecModule sio2man_irx 0; EvExecModule padman_irx 0;
            EvExecModule libsd_irx 0; EvExecModule usbd_irx 0;
            EvExecModule usbmass_bd_irx 0; EvExecModule bdm_irx 0;
            EvExecModule bdmfs_fatfs_irx 0;
            EvNops 16777216; EvNops 16777216; EvNops 16777216;
            EvNops 16777216; EvNops 16777216]
           [EvNopDelay; EvExecModule ps2hdd_irx 0; EvExecModule ps2fs_irx 0;
            EvExecModule ps2dev9_irx 0; EvLog "IRX: Loading audsrv...";
            EvExecModule audsrv_irx 0; EvLog "IRX: Audsrv loaded!"]
           "mass:/" 0).
  vm_compute. reflexivity.
Defined.

(** ** More facts about calls and processes *)

Section MoreCallFacts.

Variable cfg : BuildConfig.
Variable env : Environment.

(** Whatever the flag, what a call loads is part of its bring-up sequence. *)
Lemma loadAll_loads_in_sequence (withUsb withHdd isLoggingToFile : bool)
    (w : World) (m : Irx) :
  In m (loaded_modules
          (emitted (loadAll cfg env withUsb withHdd isLoggingToFile) w)) ->
  In m (bringup_sequence cfg withUsb withHdd).
Proof.
  intros Hin.
  destruct (loadAll_follows cfg env withUsb withHdd isLoggingToFile w)
    as (_ & Hr & _).
  simpl in Hr. destruct (runs_modules_prefix _ _ _ Hr) as (q & Hq).
  unfold script_of_call in Hq. destruct (isLoaded w).
  - simpl in Hq. symmetry in Hq. apply app_eq_nil in Hq.
    destruct Hq as [Hq _]. rewrite Hq in Hin. contradiction.
  - rewrite script_loadAll_modules in Hq. rewrite Hq.
    apply in_or_app. left. exact Hin.
Qed.

(** One call keeps the flag and the log in step; a call that does not return
    can leave a flag that was clear out of step, and only that. *)
Lemma do_call_keeps_flag_and_log (c : Call) (w : World) :
  flag_matches_log cfg w ->
  let w' := world_after (do_call cfg env c) w in
  (isLoaded w' = true ->
   exists withUsb withHdd,
     loaded_modules (log w') = bringup_sequence cfg withUsb withHdd /\
     Forall (fun x => 0 <= snd x) (loads (log w'))) /\
  (forall a, result_of (do_call cfg env c) w = Ok a ->
   isLoaded w' = false -> loads (log w') = []).
Proof.
  intros [Hon Hoff] w'. unfold w'. clear w'.
  destruct c as [fuel | withUsb withHdd isLoggingToFile]; simpl.
  - destruct (IrxLoader_runs cfg env fuel w) as (evs & Hl & Hf & Hr).
    apply ctor_run_no_loads in Hr.
    unfold loaded_modules. rewrite Hl, loads_app, Hr, app_nil_r, Hf.
    split; [exact Hon | intros a _; exact Hoff].
  - destruct (loadAll_follows cfg env withUsb withHdd isLoggingToFile w)
      as (Hl & Hr & Hf).
    simpl in Hl, Hr, Hf.
    set (c := loadAll cfg env withUsb withHdd isLoggingToFile) in *.
    destruct (isLoaded w) eqn:Hflag.
    + assert (Hnl : loads (emitted c w) = []).
      { apply runs_modules_prefix in Hr. destruct Hr as (q & Hq).
        simpl in Hq. symmetry in Hq. apply app_eq_nil in Hq.
        destruct Hq as [Hq _]. apply map_eq_nil in Hq. exact Hq. }
      unfold loaded_modules. rewrite Hl, loads_app, Hnl, app_nil_r.
      split; [intros _; apply Hon; reflexivity |].
      intros a _ Hclear. rewrite Hf in Hclear.
      destruct (result_of c w); discriminate.
    + simpl in Hr. pose proof (Hoff eq_refl) as Hnone.
      unfold loaded_modules. rewrite Hl, loads_app, Hnone. simpl.
      split.
      * intros Hset. rewrite Hf in Hset.
        destruct (result_of c w) as [a | msg |] eqn:Hres; try discriminate.
        destruct (runs_ok_modules _ _ _ Hr) as (Hm & Hall & _).
        rewrite script_loadAll_modules in Hm.
        exists withUsb, withHdd. split; [exact Hm | exact Hall].
      * intros a Ha Hclear. rewrite Hf, Ha in Hclear. discriminate.
Qed.

Lemma process_keeps_flag_and_log (cs : list Call) :
  forall w,
    flag_matches_log cfg w ->
    let w' := world_after (process cfg env cs) w in
    (isLoaded w' = true ->
     exists withUsb withHdd,
       loaded_modules (log w') = bringup_sequence cfg withUsb withHdd /\
       Forall (fun x => 0 <= snd x) (loads (log w'))) /\
    (forall a, result_of (process cfg env cs) w = Ok a ->
     isLoaded w' = false -> loads (log w') = []).
Proof.
  induction cs as [| c cs IH]; intros w Hinv; simpl.
  - destruct Hinv as [Hon Hoff]. unfold world_after, ret. simpl.
    split; [exact Hon | intros a _; exact Hoff].
  - destruct (do_call_keeps_flag_and_log c w Hinv) as [Hon1 Hoff1].
    unfold world_after, result_of, bind in *.
    destruct (do_call cfg env c w) as [[[] | msg |] w1]; simpl in *.
    + apply IH. split; [exact Hon1 | apply (Hoff1 tt eq_refl)].
    + split; [exact Hon1 | intros a Ha; discriminate].
    + split; [exact Hon1 | intros a Ha; discriminate].
Qed.

End MoreCallFacts.

(** X7.  Only what was asked for and built in is ever loaded.  A call of
    [loadAll] loads an image of the USB batch only when [withUsb] is set, and
    an image of the HDD batch only when [withHdd] is set.  The two USB driver
    variants are never mixed: the mini driver and the mini bridge are loaded
    only in a [USE_USBDMINI] build, the standard ones only in a build without
    it.  The legacy ATA driver is loaded only in an [ATAD] build. *)
Theorem X7_only_selected_images (cfg : BuildConfig) (env : Environment)
    (withUsb withHdd isLoggingToFile : bool) (w : World) (m : Irx) :
  In m (loaded_modules
          (emitted (loadAll cfg env withUsb withHdd isLoggingToFile) w)) ->
  (loader_of m = LoadUsbModules -> withUsb = true) /\
  (loader_of m = LoadHddModules -> withHdd = true) /\
  (m = usbd_mini_irx \/ m = usbmass_bd_mini_irx -> USE_USBDMINI cfg = true) /\
  (m = usbd_irx \/ m = usbmass_bd_irx -> USE_USBDMINI cfg = false) /\
  (m = ps2atad_irx -> ATAD cfg = true).
Proof.
  intros Hin. apply loadAll_loads_in_sequence in Hin.
  unfold bringup_sequence, usb_batch, hdd_batch in Hin.
  destruct withUsb, withHdd, (USE_USBDMINI cfg), (ATAD cfg); simpl in Hin;
    repeat (destruct Hin as [<- | Hin];
            [repeat split; intros H; try reflexivity;
             try discriminate H; destruct H; discriminate |]);
    contradiction.
Qed.

Lemma X7_only_selected_images_witness :
  In usbd_mini_irx
     (loaded_modules
        (emitted (loadAll cfg_full env_ok true false true) initial_world)) /\
  USE_USBDMINI cfg_full = true.
Proof.
  assert (H : In usbd_mini_irx
     (loaded_modules
        (emitted (loadAll cfg_full env_ok true false true) initial_world))).
  { vm_compute. auto 10. }
  split; [exact H |].
  destruct (X7_only_selected_images cfg_full env_ok true false true
              initial_world usbd_mini_irx H) as (_ & _ & Hmini & _).
  apply Hmini. left. reflexivity.
Defined.

(** X8.  The halt message names the module that failed.  When a call of
    [loadAll] halts, the log ends with the load of some module, with a
    negative status, and the failed assertion; the message of the halt is the
    one the source attaches to that module, and no other module of the call's
    bring-up sequence has the same message. *)
Theorem X8_halt_message_names_module (cfg : BuildConfig) (env : Environment)
    (withUsb withHdd isLoggingToFile : bool) (w : World) (msg : string) :
  let c := loadAll cfg env withUsb withHdd isLoggingToFile in
  result_of c w = Halt msg ->
  exists pre m z,
    emitted c w = pre ++ [EvExecModule m z; EvAssertFail msg] /\
    z < 0 /\
    msg = assert_message m /\
    In m (bringup_sequence cfg withUsb withHdd) /\
    (forall m', In m' (bringup_sequence cfg withUsb withHdd) ->
                assert_message m' = msg -> m' = m).
Proof.
  intros c Hres.
  destruct (loadAll_follows cfg env withUsb withHdd isLoggingToFile w)
    as (_ & Hr & _).
  fold c in Hr. rewrite Hres in Hr.
  destruct (runs_halt_item _ _ _ Hr) as (pre & m & z & E & Hz & Hin).
  unfold script_of_call in Hin. destruct (isLoaded w).
  { simpl in Hin. destruct Hin as [Hin | Hin]; [discriminate | contradiction]. }
  pose proof (script_loadAll_messages _ _ _ _ _ _ Hin) as Hmsg.
  apply In_script_modules in Hin. rewrite script_loadAll_modules in Hin.
  exists pre, m, z. repeat split; auto.
  intros m' Hin' E'. apply (assert_message_inj cfg withUsb withHdd); auto.
  congruence.
Qed.

Lemma X8_halt_message_names_module_witness :
  result_of (loadAll cfg_default env_padman_fails true true false)
            initial_world = Halt "Failed to load module: padman_irx" /\
  exists pre m z,
    emitted (loadAll cfg_default env_padman_fails true true false)
            initial_world =
      pre ++ [EvExecModule m z;
              EvAssertFail "Failed to load module: padman_irx"] /\
    z < 0 /\
    "Failed to load module: padman_irx" = assert_message m /\
    In m (bringup_sequence cfg_default true true) /\
    (forall m', In m' (bringup_sequence cfg_default true true) ->
                assert_message m' = "Failed to load module: padman_irx" ->
                m' = m).
Proof.
  split; [vm_compute; reflexivity |].
  apply (X8_halt_message_names_module cfg_default env_padman_fails
           true true false initial_world).
  vm_compute. reflexivity.
Defined.

(** X9.  The flag tells the truth about the process.  At any point of any
    process, [isLoaded] set means that the log holds exactly one whole
    bring-up sequence (the required modules, the optional batches of the call
    that completed, the audio server), each load with a status that is not
    negative; and as long as the process is running with [isLoaded] clear,
    no module has been loaded. *)
Theorem X9_flag_tells_the_truth (cfg : BuildConfig) (env : Environment)
    (cs : list Call) :
  let w' := world_after (process cfg env cs) initial_world in
  (isLoaded w' = true ->
   exists withUsb withHdd,
     loaded_modules (log w') = bringup_sequence cfg withUsb withHdd /\
     Forall (fun x => 0 <= snd x) (loads (log w'))) /\
  (forall a, result_of (process cfg env cs) initial_world = Ok a ->
   isLoaded w' = false -> loads (log w') = []).
Proof.
  apply process_keeps_flag_and_log.
  split; [discriminate | reflexivity].
Qed.

Lemma X9_flag_tells_the_truth_witness :
  let cs := [CallNew 1; CallLoadAll true false true; CallNew 1;
             CallLoadAll false true false] in
  isLoaded (world_after (process cfg_full env_ok cs) initial_world) = true /\
  exists withUsb withHdd,
    loaded_modules
      (log (world_after (process cfg_full env_ok cs) initial_world)) =
      bringup_sequence cfg_full withUsb withHdd /\
    Forall (fun x => 0 <= snd x)
      (loads (log (world_after (process cfg_full env_ok cs) initial_world))).
Proof.
  intros cs. split; [vm_compute; reflexivity |].
  apply (X9_flag_tells_the_truth cfg_full env_ok cs).
  vm_compute. reflexivity.
Defined.

(** ** The log lines of a loader *)

Section LineFacts.


End LineFacts.


(** ** The busy wait *)

Section DelayFacts.

Lemma delay_rounds_add (n m : nat) (w : World) :
  (delay_rounds n ;; delay_rounds m) w = delay_rounds (n + m) w.
Proof.
  revert w. induction n as [| n IH]; intros w.
  - reflexivity.
  - simpl. unfold bind at 1 2 3. unfold emit. cbv beta iota.
    apply (IH (mkWorld (isLoaded w) (log w ++ [EvNops 16777216]))).
Qed.

End DelayFacts.

(** X11.  The busy wait.  [delay count] runs [count] rounds of 0x01000000 nop
    blocks and returns, touching nothing else; a count that is zero or
    negative makes it return at once; and two delays in a row are one delay
    of the summed count. *)
Theorem X11_delay (count : Z) (w : World) :
  result_of (delay count) w = Ok tt /\
  isLoaded (world_after (delay count) w) = isLoaded w /\
  emitted (delay count) w = repeat (EvNops 16777216) (Z.to_nat count) /\
  (count <= 0 -> delay count w = (Ok tt, w)) /\
  (forall more, 0 <= count -> 0 <= more ->
     (delay count ;; delay more) w = delay (count + more) w).
Proof.
  unfold delay.
  destruct (emits_emitted _ _ (emits_delay_rounds (Z.to_nat count)) w)
    as (_ & Hf & Hr & Hevs).
  split; [exact Hr |]. split; [exact Hf |]. split; [exact Hevs |]. split.
  - intros Hneg. replace (Z.to_nat count) with O by lia. reflexivity.
  - intros more Hc Hm. rewrite Z2Nat.inj_add by assumption.
    apply delay_rounds_add.
Qed.

Lemma X11_delay_witness :
  -3 <= 0 /\
  delay (-3) initial_world = (Ok tt, initial_world) /\
  0 <= 2 /\ 0 <= 3 /\
  (delay 2 ;; delay 3) initial_world = delay (2 + 3) initial_world.
Proof.
  split; [lia |].
  destruct (X11_delay (-3) initial_world) as (_ & _ & _ & Hneg & _).
  split; [apply Hneg; lia |].
  split; [lia |]. split; [lia |].
  destruct (X11_delay 2 initial_world) as (_ & _ & _ & _ & Hadd).
  apply Hadd; lia.
Defined.
